(** * EqDialog: a shallow embedding of [eq-dialog.js]

    The class under study turns links and buttons into triggers for a
    modal built on the native [<dialog>] element.  This development embeds
    the four methods of the class ([init], [open], [create_dialog],
    [generate_dialog_id]) and the key-down listener its constructor
    installs, over an explicit model of the part of the browser they use:

    - JavaScript strings are [string]s, one [ascii] per code unit.  Code
      units above 255 are outside these strings; the patterns by which
      [init] tells the kind of a source, the one place where the class
      treats two of them (the line terminators U+2028 and U+2029) apart
      from the rest, are embedded on all 16-bit code units as well
      (module [Units]);
    - the document is a forest of nodes in tree order; an element
      reference is the child-index path of the element in the document it
      was taken from;
    - the page is an HTML document (the class needs one: [createElement]
      gives it a [dialog] element with a [style], and [innerHTML] parses
      HTML markup);
    - the HTML fragment parser, the HTML serializer, the setter of an
      inline style declaration and the browser's notion of a focusable
      area are left abstract (class [Browser]);
    - a call completes normally, throws, or (for the [while] loop of
      [generate_dialog_id], which is run on fuel) fails to return. *)

From Stdlib Require Import String Ascii List Arith NArith Bool Lia FinFun.
From Stdlib Require Import Decimal DecimalNat DecimalString.
Import ListNotations.
Local Open Scope string_scope.

(* ================================================================== *)
(** * JavaScript strings *)
(* ================================================================== *)

Module Js.

(** The double quote, and a string between double quotes. *)
Definition dquote : string := String (ascii_of_nat 34) EmptyString.

Definition quoted (s : string) : string := dquote ++ s ++ dquote.

(** [String(n)] for a non-negative integer [n]: its decimal digits.  (The
    loop counter of [generate_dialog_id] stays far below 2^53, where the
    arithmetic of JavaScript numbers is exact: it is bounded by the
    number of elements of the document.) *)
Definition number_to_string (n : nat) : string :=
  NilEmpty.string_of_uint (Nat.to_uint n).

(** A string is truthy when it is not empty. *)
Definition truthy (s : string) : bool := negb (s =? "").

(** [x ? x : false] on an attribute that may be absent: the value when
    it is there and truthy. *)
Definition truthy_value (v : option string) : option string :=
  match v with
  | Some s => if truthy s then Some s else None
  | None => None
  end.

(** String conversion of a value that may be [undefined]. *)
Definition or_undefined (v : option string) : string :=
  match v with
  | Some s => s
  | None => "undefined"
  end.

(** [s] without the prefix [pat], when it starts with it. *)
Fixpoint strip_prefix (pat s : string) : option string :=
  match pat, s with
  | EmptyString, _ => Some s
  | String a pat', String c s' =>
      if Ascii.eqb a c then strip_prefix pat' s' else None
  | String _ _, EmptyString => None
  end.

(** The text before and after the first occurrence of [pat] in [s]. *)
Fixpoint split_at_first (pat s : string) : option (string * string) :=
  match strip_prefix pat s with
  | Some after => Some ("", after)
  | None =>
      match s with
      | EmptyString => None
      | String c s' =>
          match split_at_first pat s' with
          | Some (before, after) => Some (String c before, after)
          | None => None
          end
      end
  end.

(** ECMAScript's GetSubstitution for a string pattern (no captures): in
    the replacement text [$$] is a dollar, [$&] the matched text, [$`]
    the text before the match and [$'] the text after it; any other
    dollar stands for itself. *)
Fixpoint get_substitution (matched before after repl : string) : string :=
  match repl with
  | EmptyString => ""
  | String c tail =>
      if Ascii.eqb c "$" then
        match tail with
        | EmptyString => "$"
        | String k rest =>
            if Ascii.eqb k "$" then
              "$" ++ get_substitution matched before after rest
            else if Ascii.eqb k "&" then
              matched ++ get_substitution matched before after rest
            else if Ascii.eqb k "`" then
              before ++ get_substitution matched before after rest
            else if Ascii.eqb k "'" then
              after ++ get_substitution matched before after rest
            else
              String c (String k (get_substitution matched before after rest))
        end
      else String c (get_substitution matched before after tail)
  end.

(** [s.replace(pat, repl)] with a string pattern: the first occurrence
    of [pat] only. *)
Definition replace (s pat repl : string) : string :=
  match split_at_first pat s with
  | Some (before, after) =>
      before ++ get_substitution pat before after repl ++ after
  | None => s
  end.

(** [s.substring(n)]. *)
Fixpoint substring (n : nat) (s : string) : string :=
  match n, s with
  | 0, _ => s
  | S n', String _ s' => substring n' s'
  | S _, EmptyString => ""
  end.

(** [s[0] === c]. *)
Definition first_char_is (c : ascii) (s : string) : bool :=
  match s with
  | String a _ => Ascii.eqb a c
  | EmptyString => false
  end.

End Js.

(* ================================================================== *)
(** * The regular expressions of the class *)
(* ================================================================== *)

(** Each regular expression literal of the source is embedded as the
    matcher it denotes.  None has the [m] or [s] flag: [^] and [$] are the
    two ends of the input and [.] is any character except a line
    terminator.  (In these comments a blank separates a star from the
    closing parenthesis that follows it in the source.) *)

Module Regex.

Definition code_in (lo hi : nat) (c : ascii) : bool :=
  Nat.leb lo (nat_of_ascii c) && Nat.leb (nat_of_ascii c) hi.

Definition is_lower (c : ascii) : bool := code_in 97 122 c.
Definition is_upper (c : ascii) : bool := code_in 65 90 c.
Definition is_digit (c : ascii) : bool := code_in 48 57 c.

(** Line feed and carriage return: what [.] refuses. *)
Definition is_line_terminator (c : ascii) : bool :=
  Ascii.eqb c (ascii_of_nat 10) || Ascii.eqb c (ascii_of_nat 13).

(** Canonicalization under the [i] flag: a character is compared through
    its upper case.  A character outside ASCII never canonicalizes to an
    ASCII one, so it is left as it is. *)
Definition canonicalize (c : ascii) : ascii :=
  if is_lower c then ascii_of_nat (nat_of_ascii c - 32) else c.

Definition char_eq_i (a c : ascii) : bool :=
  Ascii.eqb (canonicalize a) (canonicalize c).

(** The input after the literal [pat], matched ignoring case. *)
Fixpoint strip_prefix_i (pat s : string) : option string :=
  match pat, s with
  | EmptyString, _ => Some s
  | String a pat', String c s' =>
      if char_eq_i a c then strip_prefix_i pat' s' else None
  | String _ _, EmptyString => None
  end.

(** [.*$]: the rest of the input holds no line terminator. *)
Fixpoint dots_to_end (s : string) : bool :=
  match s with
  | EmptyString => true
  | String c s' => negb (is_line_terminator c) && dots_to_end s'
  end.

(** [((\?|#).* )?$]: the end of the input, or a query string or fragment
    that runs to the end. *)
Definition query_or_fragment_to_end (s : string) : bool :=
  match s with
  | EmptyString => true
  | String c s' =>
      (Ascii.eqb c "?" || Ascii.eqb c "#") && dots_to_end s'
  end.

(** [(e1|...|en)((\?|#).* )?$] at the head of [s], ignoring case.  The
    matcher backtracks over the alternatives, so one of them followed by
    the tail is enough. *)
Definition extension_here (exts : list string) (s : string) : bool :=
  existsb
    (fun ext =>
       match strip_prefix_i ext s with
       | Some rest => query_or_fragment_to_end rest
       | None => false
       end)
    exts.

(** [/\.(e1|...|en)((\?|#).* )?$/i] somewhere in [s]. *)
Fixpoint dot_extension (exts : list string) (s : string) : bool :=
  match s with
  | EmptyString => false
  | String c s' =>
      (Ascii.eqb c "." && extension_here exts s') || dot_extension exts s'
  end.

(** [[a-z0-9+\/=]] under the [i] flag. *)
Definition data_uri_char (c : ascii) : bool :=
  is_lower c || is_upper c || is_digit c
  || Ascii.eqb c "+" || Ascii.eqb c "/" || Ascii.eqb c "=".

(** [[a-z0-9+\/=]*,] at the head of [s]: the comma is not in the class,
    so the star takes the whole run of class characters. *)
Fixpoint data_uri_type_then_comma (s : string) : bool :=
  match s with
  | EmptyString => false
  | String c s' =>
      if Ascii.eqb c "," then true
      else if data_uri_char c then data_uri_type_then_comma s'
      else false
  end.

(** [^data:image\/[a-z0-9+\/=]*,] *)
Definition data_image_prefix (s : string) : bool :=
  match strip_prefix_i "data:image/" s with
  | Some rest => data_uri_type_then_comma rest
  | None => false
  end.

(** The alternatives of [jp(e|g|eg)|gif|png|bmp|webp|svg|ico]. *)
Definition image_extensions : list string :=
  ["jpe"; "jpg"; "jpeg"; "gif"; "png"; "bmp"; "webp"; "svg"; "ico"].

Definition video_extensions : list string := ["mp4"; "mov"; "ogg"; "webm"].

Definition document_extensions : list string := ["pdf"].

(** Line 79:
    [/(^data:image\/[a-z0-9+\/=]*,)|(\.(jp(e|g|eg)|gif|png|bmp|webp|svg|ico)((\?|#).* )?$)/i] *)
Definition image_re (s : string) : bool :=
  data_image_prefix s || dot_extension image_extensions s.

(** Line 81: [/\.(mp4|mov|ogg|webm)((\?|#).* )?$/i] *)
Definition video_re (s : string) : bool := dot_extension video_extensions s.

(** Line 83: [/\.(pdf)((\?|#).* )?$/i] *)
Definition pdf_re (s : string) : bool := dot_extension document_extensions s.

Fixpoint no_dot (s : string) : bool :=
  match s with
  | EmptyString => true
  | String c s' => negb (Ascii.eqb c ".") && no_dot s'
  end.

(** Line 175-176: [/(?:\.([^.]+))?$/.exec(s)[1]].  The match is the
    leftmost one: at a dot followed by a non-empty run without dots that
    reaches the end of the input the group captures that run; at any other
    place before the end nothing matches; at the end the empty match
    leaves the group [undefined]. *)
Fixpoint matcher_group1 (s : string) : option string :=
  match s with
  | EmptyString => None
  | String c s' =>
      if Ascii.eqb c "." && Js.truthy s' && no_dot s' then Some s'
      else matcher_group1 s'
  end.

End Regex.

(* ================================================================== *)
(** * The patterns of lines 79-83, on all code units *)
(* ================================================================== *)

(** A JavaScript string is a sequence of 16-bit code units, here numbers.
    The three patterns by which [init] tells the kind of a source are
    embedded once more on such sequences, as in [Regex] function by
    function: the dot of their [.* ] refuses four line terminators, two of
    which no string of the model can hold.  [infer_agrees], further down,
    shows that on the strings of the model the two embeddings are one. *)

Module Units.

(** The code units of a string of the model. *)
Definition of_string (s : string) : list N :=
  map N_of_ascii (list_ascii_of_string s).

(** The code unit [c] is the character [a]. *)
Definition is_char (a : ascii) (c : N) : bool := (c =? N_of_ascii a)%N.

Definition code_in (lo hi c : N) : bool := (lo <=? c)%N && (c <=? hi)%N.

(** What [.] refuses: line feed, carriage return, line separator
    (U+2028) and paragraph separator (U+2029). *)
Definition is_line_terminator (c : N) : bool :=
  (c =? 10)%N || (c =? 13)%N || (c =? 8232)%N || (c =? 8233)%N.

(** Canonicalization under the [i] flag, without the [u] flag: a code
    unit is compared through its upper case, except that a unit outside
    ASCII is never taken to one inside.  The patterns hold ASCII
    characters only, so that all that matters of the upper case of a unit
    outside ASCII is that it is outside ASCII too: it is left as it is. *)
Definition canonicalize (c : N) : N :=
  if code_in 97 122 c then (c - 32)%N else c.

Definition char_eq_i (a : ascii) (c : N) : bool :=
  (canonicalize (N_of_ascii a) =? canonicalize c)%N.

(** The input after the literal [pat], matched ignoring case. *)
Fixpoint strip_prefix_i (pat : string) (s : list N) : option (list N) :=
  match pat, s with
  | EmptyString, _ => Some s
  | String a pat', c :: s' =>
      if char_eq_i a c then strip_prefix_i pat' s' else None
  | String _ _, [] => None
  end.

(** [.*$]: the rest of the input holds no line terminator. *)
Fixpoint dots_to_end (s : list N) : bool :=
  match s with
  | [] => true
  | c :: s' => negb (is_line_terminator c) && dots_to_end s'
  end.

(** [((\?|#).* )?$] *)
Definition query_or_fragment_to_end (s : list N) : bool :=
  match s with
  | [] => true
  | c :: s' => (is_char "?" c || is_char "#" c) && dots_to_end s'
  end.

(** [(e1|...|en)((\?|#).* )?$] at the head of [s], ignoring case. *)
Definition extension_here (exts : list string) (s : list N) : bool :=
  existsb
    (fun ext =>
       match strip_prefix_i ext s with
       | Some rest => query_or_fragment_to_end rest
       | None => false
       end)
    exts.

(** [/\.(e1|...|en)((\?|#).* )?$/i] somewhere in [s]. *)
Fixpoint dot_extension (exts : list string) (s : list N) : bool :=
  match s with
  | [] => false
  | c :: s' => (is_char "." c && extension_here exts s') || dot_extension exts s'
  end.

(** [[a-z0-9+\/=]] under the [i] flag. *)
Definition data_uri_char (c : N) : bool :=
  code_in 97 122 c || code_in 65 90 c || code_in 48 57 c
  || is_char "+" c || is_char "/" c || is_char "=" c.

(** [[a-z0-9+\/=]*,] at the head of [s]. *)
Fixpoint data_uri_type_then_comma (s : list N) : bool :=
  match s with
  | [] => false
  | c :: s' =>
      if is_char "," c then true
      else if data_uri_char c then data_uri_type_then_comma s'
      else false
  end.

(** [^data:image\/[a-z0-9+\/=]*,] *)
Definition data_image_prefix (s : list N) : bool :=
  match strip_prefix_i "data:image/" s with
  | Some rest => data_uri_type_then_comma rest
  | None => false
  end.

(** Lines 79, 81 and 83, with the alternatives as [Regex] lists them. *)
Definition image_re (s : list N) : bool :=
  data_image_prefix s || dot_extension Regex.image_extensions s.

Definition video_re (s : list N) : bool :=
  dot_extension Regex.video_extensions s.

Definition pdf_re (s : list N) : bool :=
  dot_extension Regex.document_extensions s.

(** Lines 78-91 on a source given by its code units. *)
Definition infer_dialog_type (src : list N) : option string :=
  if image_re src then Some "image"
  else if video_re src then Some "video"
  else if pdf_re src then Some "iframe"
  else
    match src with
    | c :: _ => if is_char "#" c then Some "inline" else None
    | [] => None
    end.

End Units.

(* ================================================================== *)
(** * The document *)
(* ================================================================== *)

Module Dom.

(** An element: its tag name (lower case, as [localName]), its [id]
    attribute, its other attributes and its inline style. *)
Record element : Type := mk_element {
  tag_name : string;
  id_attr : option string;
  attributes : list (string * string);
  inline_style : list (string * string)
}.

(** A list of sibling nodes in tree order, each element with the list of
    its children.  A document is the list of the children of the
    [Document] node. *)
Inductive nodes : Type :=
| no_nodes
| text_node (data : string) (siblings : nodes)
| element_node (e : element) (children : nodes) (siblings : nodes).

(** An element reference: the child indices that lead to it from the
    top of the document. *)
Definition path : Type := list nat.

Definition next_sibling (p : path) : path :=
  match p with
  | [] => []
  | i :: rest => S i :: rest
  end.

Fixpoint path_eqb (p q : path) : bool :=
  match p, q with
  | [], [] => true
  | i :: p', j :: q' => Nat.eqb i j && path_eqb p' q'
  | _, _ => false
  end.

(** [a === b] on two values that are an element or [null]. *)
Definition same_node (a b : option path) : bool :=
  match a, b with
  | Some p, Some q => path_eqb p q
  | None, None => true
  | _, _ => false
  end.

Fixpoint lookup_attribute (name : string) (l : list (string * string))
  : option string :=
  match l with
  | [] => None
  | (k, v) :: l' => if k =? name then Some v else lookup_attribute name l'
  end.

Definition has_attribute (name : string) (e : element) : bool :=
  match lookup_attribute name (attributes e) with
  | Some _ => true
  | None => false
  end.

Definition has_tag (t : string) (e : element) : bool := tag_name e =? t.

Definition has_id (key : string) (e : element) : bool :=
  match id_attr e with
  | Some i => i =? key
  | None => false
  end.

(** [removeAttribute('id')] *)
Definition remove_id (e : element) : element :=
  mk_element (tag_name e) None (attributes e) (inline_style e).

(** [setAttribute(name, value)] on an attribute other than [id]. *)
Definition set_attribute (name value : string) (e : element) : element :=
  mk_element (tag_name e) (id_attr e)
    ((name, value)
       :: filter (fun kv => negb (fst kv =? name)) (attributes e))
    (inline_style e).

(** The number of nodes of a list of siblings. *)
Fixpoint node_count (d : nodes) : nat :=
  match d with
  | no_nodes => 0
  | text_node _ rest => S (node_count rest)
  | element_node _ _ rest => S (node_count rest)
  end.

(** The elements of a forest, in tree order. *)
Fixpoint elements (d : nodes) : list element :=
  match d with
  | no_nodes => []
  | text_node _ rest => elements rest
  | element_node e kids rest => e :: elements kids ++ elements rest
  end.

(** The number of elements of a forest that satisfy [P]. *)
Fixpoint count (P : element -> bool) (d : nodes) : nat :=
  match d with
  | no_nodes => 0
  | text_node _ rest => count P rest
  | element_node e kids rest =>
      (if P e then 1 else 0) + count P kids + count P rest
  end.

(** The first element in tree order that satisfies [P]. *)
Fixpoint find_first (P : element -> bool) (d : nodes) : option path :=
  match d with
  | no_nodes => None
  | text_node _ rest => option_map next_sibling (find_first P rest)
  | element_node e kids rest =>
      if P e then Some [0]
      else
        match find_first P kids with
        | Some p => Some (0 :: p)
        | None => option_map next_sibling (find_first P rest)
        end
  end.

(** All the elements that satisfy [P], in tree order. *)
Fixpoint find_all (P : element -> bool) (d : nodes) : list path :=
  match d with
  | no_nodes => []
  | text_node _ rest => map next_sibling (find_all P rest)
  | element_node e kids rest =>
      (if P e then [[0]] else [])
      ++ map (cons 0) (find_all P kids)
      ++ map next_sibling (find_all P rest)
  end.

(** The element a path leads to, with its children. *)
Fixpoint node_at (d : nodes) (p : path) : option (element * nodes) :=
  match d, p with
  | no_nodes, _ => None
  | _, [] => None
  | text_node _ _, 0 :: _ => None
  | text_node _ rest, S i :: p' => node_at rest (i :: p')
  | element_node e kids _, [0] => Some (e, kids)
  | element_node _ kids _, 0 :: p' => node_at kids p'
  | element_node _ _ rest, S i :: p' => node_at rest (i :: p')
  end.

(** The document with the element at [p] changed by [f]. *)
Fixpoint update_at (f : element -> element) (d : nodes) (p : path) : nodes :=
  match d, p with
  | no_nodes, _ => no_nodes
  | _, [] => d
  | text_node _ _, 0 :: _ => d
  | text_node s rest, S i :: p' => text_node s (update_at f rest (i :: p'))
  | element_node e kids rest, [0] => element_node (f e) kids rest
  | element_node e kids rest, 0 :: p' =>
      element_node e (update_at f kids p') rest
  | element_node e kids rest, S i :: p' =>
      element_node e kids (update_at f rest (i :: p'))
  end.

(** The document without the element at [p] and its descendants. *)
Fixpoint remove_at (d : nodes) (p : path) : nodes :=
  match d, p with
  | no_nodes, _ => no_nodes
  | _, [] => d
  | text_node _ _, 0 :: _ => d
  | text_node s rest, S i :: p' => text_node s (remove_at rest (i :: p'))
  | element_node _ _ rest, [0] => rest
  | element_node e kids rest, 0 :: p' => element_node e (remove_at kids p') rest
  | element_node e kids rest, S i :: p' =>
      element_node e kids (remove_at rest (i :: p'))
  end.

(** Two lists of siblings, one after the other. *)
Fixpoint append_nodes (a b : nodes) : nodes :=
  match a with
  | no_nodes => b
  | text_node s rest => text_node s (append_nodes rest b)
  | element_node e kids rest => element_node e kids (append_nodes rest b)
  end.

(** [appendChild]: the document with [new] after the last child of the
    element at [p]. *)
Fixpoint append_child (d : nodes) (p : path) (new : nodes) : nodes :=
  match d, p with
  | no_nodes, _ => no_nodes
  | _, [] => d
  | text_node _ _, 0 :: _ => d
  | text_node s rest, S i :: p' => text_node s (append_child rest (i :: p') new)
  | element_node e kids rest, [0] => element_node e (append_nodes kids new) rest
  | element_node e kids rest, 0 :: p' =>
      element_node e (append_child kids p' new) rest
  | element_node e kids rest, S i :: p' =>
      element_node e kids (append_child rest (i :: p') new)
  end.

(** The first element among a list of siblings that satisfies [P]: its
    index, itself and its children. *)
Fixpoint first_child (P : element -> bool) (d : nodes)
  : option (nat * element * nodes) :=
  match d with
  | no_nodes => None
  | text_node _ rest =>
      match first_child P rest with
      | Some (i, e, kids) => Some (S i, e, kids)
      | None => None
      end
  | element_node e kids rest =>
      if P e then Some (0, e, kids)
      else
        match first_child P rest with
        | Some (i, e', kids') => Some (S i, e', kids')
        | None => None
        end
  end.

(** [document.documentElement]: the first element child of the
    document. *)
Definition document_element (d : nodes) : option (nat * element * nodes) :=
  first_child (fun _ => true) d.

(** [document.body]: the first [body] or [frameset] child of the
    document element, when that is an [html] element. *)
Definition body (d : nodes) : option path :=
  match document_element d with
  | Some (i, e, kids) =>
      if has_tag "html" e then
        match
          first_child (fun c => has_tag "body" c || has_tag "frameset" c) kids
        with
        | Some (j, _, _) => Some [i; j]
        | None => None
        end
      else None
  | None => None
  end.

(** [getElementById(key)]: the first element in tree order whose [id] is
    [key]; no element has the empty [id]. *)
Definition get_element_by_id (key : string) (d : nodes) : option path :=
  if key =? "" then None else find_first (has_id key) d.

(** [NodeList.item(i)] and [item(length - 1)]: [null] out of range, so
    both are [null] on an empty list. *)
Definition item (l : list path) (i : nat) : option path := nth_error l i.

Definition last_item (l : list path) : option path :=
  match l with
  | [] => None
  | _ :: _ => nth_error l (length l - 1)
  end.

End Dom.

(* ================================================================== *)
(** * The page and the calls on it *)
(* ================================================================== *)

(** What the class reads and writes: the document, the console (each
    [console.error] adds its message at the end) and the focused element
    ([None]: the focus is on the viewport).  The document is an HTML
    document, whatever elements it holds: it may have lost its body, or
    have another element than [html] for its document element, and
    [document.body] is then [null]. *)
Record page : Type := mk_page {
  document : Dom.nodes;
  console : list string;
  focused : option Dom.path
}.

(** How a call ends.  [Diverges] stands for a loop that does not return. *)
Inductive completion (A : Type) : Type :=
| Normal (value : A) (after : page)
| Throws (error : string) (after : page)
| Diverges.

Arguments Normal {A} value after.
Arguments Throws {A} error after.
Arguments Diverges {A}.

(** A call: a function of the page it starts from. *)
Definition action (A : Type) : Type := page -> completion A.

Definition ret {A : Type} (a : A) : action A := fun p => Normal a p.

Definition bind {A B : Type} (m : action A) (k : A -> action B) : action B :=
  fun p =>
    match m p with
    | Normal a p' => k a p'
    | Throws e p' => Throws e p'
    | Diverges => Diverges
    end.

Definition throw {A : Type} (e : string) : action A := fun p => Throws e p.

Notation "x <- m ;; k" := (bind m (fun x => k))
  (at level 61, m at next level, right associativity).
Notation "m ;;; k" := (bind m (fun _ => k))
  (at level 61, right associativity).

Definition read_document : action Dom.nodes := fun p => Normal (document p) p.

Definition write_document (d : Dom.nodes) : action unit :=
  fun p => Normal tt (mk_page d (console p) (focused p)).

Definition console_error (msg : string) : action unit :=
  fun p => Normal tt (mk_page (document p) (console p ++ [msg]) (focused p)).

(** [document.activeElement]: the focused element; with the focus on the
    viewport, the body, else the document element, else [null]. *)
Definition active_element (p : page) : option Dom.path :=
  match focused p with
  | Some f => Some f
  | None =>
      match Dom.body (document p) with
      | Some b => Some b
      | None =>
          match Dom.document_element (document p) with
          | Some (i, _, _) => Some [i]
          | None => None
          end
      end
  end.

(** [obj[name] = value] on an object kept as the list of its properties
    in insertion order: the value of an existing property is replaced in
    place, a new property goes to the end. *)
Fixpoint set_property (name value : string) (obj : list (string * string))
  : list (string * string) :=
  match obj with
  | [] => [(name, value)]
  | (k, v) :: rest =>
      if k =? name then (k, value) :: rest
      else (k, v) :: set_property name value rest
  end.

(** The browser functions the class calls and this development leaves
    abstract:
    - the fragment parser behind the [innerHTML] setter and the serializer
      behind its getter;
    - [style[name] = value] on the declarations of an inline style: the
      declarations after the assignment.  The browser parses the value for
      the property the name stands for; a value it cannot parse, or a name
      that is no property, leaves the declarations as they are, and a
      shorthand sets several;
    - whether an element is a focusable area ([focus()] on an element that
      is not one does nothing);
    - whether the search of the dialog focusing steps of [showModal()]
      stops at an element below the dialog: the element is sequentially
      focusable, or a focusable area is gotten for it. *)
Class Browser : Type := mk_browser {
  parse_html : string -> Dom.nodes;
  inner_html : Dom.nodes -> string;
  set_style_property :
    string -> string -> list (string * string) -> list (string * string);
  focusable_area : Dom.element -> bool;
  sequentially_focusable : Dom.element -> bool
}.

(** The settings of an instance, as the constructor leaves them (lines
    27-37): the options the class recognizes.  The three templates, which
    an option of the same name would replace, are taken as the defaults
    give them. *)
Module Settings.
Record t : Type := mk {
  selector : string;
  show_close_button : bool;
  close_button_text : string;
  remove_inline_content : bool;
  style : list (string * string)
}.
End Settings.

(** The object [create_dialog] receives (lines 94-100 and 126-131); [open]
    passes no [close_button_text]. *)
Module Params.
Record t : Type := mk {
  dialog_type : string;
  dialog_id : string;
  src : string;
  img_alt : string;
  close_button_text : option string
}.
End Params.

(** A trigger element, by the five attributes [init] reads: [data-type],
    [href], [data-target], [data-img-alt] and [data-close-btn-txt].  The
    triggers are what [querySelectorAll] found for the selector.  Of the
    five, [init] writes the [href] (line 106), and that write is kept on
    this record.  The record is no more than these attributes: the
    trigger is also an element of the document, where [create_dialog]
    strips its [id] or removes it when it is itself the inline fragment
    that a trigger names; what is said of a trigger below is said of the
    five attributes, which neither of the two touches. *)
Record trigger : Type := mk_trigger {
  data_type : option string;
  href : option string;
  data_target : option string;
  data_img_alt : option string;
  data_close_btn_txt : option string
}.

(** The fields of a [keydown] event the listener can see. *)
Record keyboard_event : Type := mk_keyboard_event {
  key : string;
  shiftKey : bool;
  ctrlKey : bool;
  altKey : bool;
  metaKey : bool
}.

(** Lines 8-17. *)
Definition eq_dialog_defaults : Settings.t :=
  Settings.mk ".eq-dialog" true "Close dialog" false [("width", "600px")].

(** Line 20. *)
Definition template_close_button : string :=
  "<form class=" ++ Js.quoted "eq-close-btn"
  ++ " method=" ++ Js.quoted "dialog"
  ++ "><button autofocus aria-label=" ++ Js.quoted "{{close_btn_txt}}"
  ++ "></button></form>".

(** Lines 21-24. *)
Definition template_video : string :=
  "<video class=" ++ Js.quoted "eq-dialog-video" ++ " controls autoplay>"
  ++ "<source src=" ++ Js.quoted "{{src}}"
  ++ " type=" ++ Js.quoted "{{format}}" ++ " />"
  ++ "Sorry, your browser doesn't support embedded videos, <a href="
  ++ Js.quoted "{{src}}"
  ++ ">download</a> and watch with your favorite video player!"
  ++ "</video>".

(* ================================================================== *)
(** * The class *)
(* ================================================================== *)

Section EqDialog.

Context {browser : Browser}.

(** ** [generate_dialog_id] (lines 198-206) *)

(** Line 200 and 203. *)
Definition candidate_id (dialog_type : string) (index : nat) : string :=
  dialog_type ++ "-dialog-" ++ Js.number_to_string index.

(** The [while] loop, entered with [index]; [fuel] bounds the number of
    times its body runs. *)
Fixpoint generate_loop (d : Dom.nodes) (dialog_type : string)
  (fuel index : nat) : option string :=
  let id := candidate_id dialog_type index in
  match Dom.get_element_by_id id d with
  | None => Some id
  | Some _ =>
      match fuel with
      | 0 => None
      | S fuel' => generate_loop d dialog_type fuel' (S index)
      end
  end.

(** The method on a given document.  The fuel is the number of elements
    of the document: [generate_dialog_id_returns] shows it is enough. *)
Definition generate_dialog_id (d : Dom.nodes) (dialog_type : string)
  : option string :=
  generate_loop d dialog_type (length (Dom.elements d)) 0.

Definition call_generate_dialog_id (dialog_type : string) : action string :=
  fun p =>
    match generate_dialog_id (document p) dialog_type with
    | Some id => Normal id p
    | None => Diverges
    end.

(** ** [create_dialog] (lines 144-196) *)

(** Lines 151-156: the markup of the close button. *)
Definition close_button_markup (settings : Settings.t) (params : Params.t)
  : string :=
  if Settings.show_close_button settings then
    Js.replace template_close_button "{{close_btn_txt}}"
      (Js.or_undefined (Params.close_button_text params))
  else "".

(** Line 176: the media type written into the player. *)
Definition format (src : string) : string :=
  "video/" ++ Js.or_undefined (Regex.matcher_group1 src).

(** Lines 177-179: the player. *)
Definition video_markup (src : string) : string :=
  Js.replace (Js.replace template_video "{{src}}" src) "{{format}}" (format src).

(** Lines 171-184: what the three [if]s on the media types add. *)
Definition media_markup (params : Params.t) : string :=
  (if Params.dialog_type params =? "image" then
     "<img src=" ++ Js.quoted (Params.src params)
     ++ " alt=" ++ Js.quoted (Params.img_alt params) ++ ">"
   else "")
  ++ (if Params.dialog_type params =? "video" then
        video_markup (Params.src params)
      else "")
  ++ (if Params.dialog_type params =? "iframe" then
        "<iframe src=" ++ Js.quoted (Params.src params) ++ ">"
      else "").

(** [dialog_content] at line 192, [inline_html] being what line 163
    added (nothing for a type other than inline). *)
Definition dialog_content (settings : Settings.t) (params : Params.t)
  (inline_html : string) : string :=
  close_button_markup settings params ++ inline_html ++ media_markup params.

(** Lines 147-149 and 187-192: the [dialog] element with its class, and in
    it the [div] of [template_inner], styled and filled with the parsed
    content.  Neither element is given an [id]. *)
Definition dialog_element : Dom.element :=
  Dom.mk_element "dialog" None [("class", "eq-dialog-wrapper")] [].

(** Lines 188-190: [inner_el.style[style_name] = settings.style[style_name]]
    for each property of the style setting in turn, on the inline style of
    the new [div], which starts without a declaration. *)
Definition apply_style (style : list (string * string))
  : list (string * string) :=
  fold_left
    (fun declared property =>
       set_style_property (fst property) (snd property) declared)
    style [].

Definition inner_element (settings : Settings.t) : Dom.element :=
  Dom.mk_element "div" None [("class", "eq-dialog-inner")]
    (apply_style (Settings.style settings)).

Definition build_dialog (settings : Settings.t) (content : string)
  : Dom.nodes :=
  Dom.element_node dialog_element
    (Dom.element_node (inner_element settings) (parse_html content)
       Dom.no_nodes)
    Dom.no_nodes.

(** Line 193, [document.body.appendChild(dialog)], and line 195.  Without
    a body [document.body] is [null] and the call throws. *)
Definition attach (dialog : Dom.nodes) : action (option Dom.path) :=
  d <- read_document ;;
  match Dom.body d with
  | None => throw "TypeError: document.body is null"
  | Some b =>
      let kids :=
        match Dom.node_at d b with
        | Some (_, kids) => kids
        | None => Dom.no_nodes
        end in
      write_document (Dom.append_child d b dialog) ;;;
      ret (Some (b ++ [Dom.node_count kids])%list)
  end.

(** Line 163: [inline_div.innerHTML]. *)
Definition inline_html (d : Dom.nodes) (inline_div : Dom.path) : string :=
  match Dom.node_at d inline_div with
  | Some (_, kids) => inner_html kids
  | None => ""
  end.

(** Lines 165-169: what becomes of the source fragment. *)
Definition consume_fragment (settings : Settings.t) (inline_div : Dom.path)
  : action unit :=
  d <- read_document ;;
  if Settings.remove_inline_content settings then
    write_document (Dom.remove_at d inline_div)
  else
    write_document (Dom.update_at Dom.remove_id d inline_div).

(** The method.  It returns the new element, or [false] (here [None])
    when the inline fragment is not found.  On an HTML document the one
    statement of it that can throw is line 193, where [document.body] may
    be [null]: [createElement] gives a [dialog] element, the parse of
    [template_inner] the [div] that line 187 finds, and the style of that
    [div] takes the assignments of line 189, whatever becomes of them. *)
Definition create_dialog (settings : Settings.t) (params : Params.t)
  : action (option Dom.path) :=
  if Params.dialog_type params =? "inline" then
    d <- read_document ;;
    match Dom.get_element_by_id (Params.dialog_id params) d with
    | None =>
        console_error
          ("Unable to find element with ID of '#"
           ++ Params.dialog_id params ++ "'") ;;;
        ret None
    | Some inline_div =>
        let html := inline_html d inline_div in
        consume_fragment settings inline_div ;;;
        attach (build_dialog settings (dialog_content settings params html))
    end
  else attach (build_dialog settings (dialog_content settings params "")).

(** ** [open] (lines 117-136) *)

(** [target.focus()]: a [TypeError] on [null]; the focus moves when the
    element is a focusable area. *)
Definition focus (target : option Dom.path) : action unit :=
  match target with
  | None => throw "TypeError: Cannot read properties of null (reading 'focus')"
  | Some t =>
      fun p =>
        match Dom.node_at (document p) t with
        | Some (e, _) =>
            if focusable_area e
            then Normal tt (mk_page (document p) (console p) (Some t))
            else Normal tt p
        | None => Normal tt p
        end
  end.

(** The autofocus delegate of the HTML Standard: a descendant with the
    [autofocus] attribute that is a focusable area. *)
Definition autofocus_delegate (e : Dom.element) : bool :=
  Dom.has_attribute "autofocus" e && focusable_area e.

(** The control of the dialog focusing steps of the HTML Standard: the
    dialog itself when it has the [autofocus] attribute; else its focus
    delegate, which is its first autofocus delegate in tree order, else
    its first sequentially focusable descendant; else the dialog. *)
Definition focus_control (d : Dom.nodes) (dlg : Dom.path)
  : option Dom.path :=
  match Dom.node_at d dlg with
  | Some (e, kids) =>
      if Dom.has_attribute "autofocus" e then Some dlg
      else
        match Dom.find_first autofocus_delegate kids with
        | Some below => Some (dlg ++ below)%list
        | None =>
            match Dom.find_first sequentially_focusable kids with
            | Some below => Some (dlg ++ below)%list
            | None => Some dlg
            end
        end
  | None => None
  end.

(** The dialog focusing steps: the focusing steps for the control, which
    do nothing when the control is no focusable area. *)
Definition dialog_focusing_steps (dlg : Dom.path) : action unit :=
  d <- read_document ;;
  match focus_control d dlg with
  | Some control => focus (Some control)
  | None => ret tt
  end.

(** [dlg.showModal()] on a connected dialog: it sets the [open]
    attribute, then runs the dialog focusing steps.  On a dialog that is
    open already the browser throws unless the dialog is modal; [open]
    never gets there, its dialog being new.  (The call also makes the
    dialog modal and the rest of the document inert; the class reads
    neither, and what the browser can focus is left to
    [focusable_area].) *)
Definition show_modal (dlg : Dom.path) : action unit :=
  d <- read_document ;;
  match Dom.node_at d dlg with
  | Some (e, _) =>
      if Dom.has_attribute "open" e then throw "InvalidStateError"
      else
        write_document (Dom.update_at (Dom.set_attribute "open" "") d dlg) ;;;
        dialog_focusing_steps dlg
  | None => throw "TypeError: not an element"
  end.

Definition open (settings : Settings.t) (dialog_type source img_alt : string)
  : action unit :=
  if (dialog_type =? "inline") && negb (Js.truthy source) then
    console_error "Inline dialogs must have a target."
  else if (dialog_type =? "image") || (dialog_type =? "iframe")
          || ((dialog_type =? "video") && negb (Js.truthy source)) then
    console_error "Media dialogs must have a source."
  else
    dialog_id <-
      (if dialog_type =? "inline" then ret source
       else call_generate_dialog_id dialog_type) ;;
    dlg <-
      create_dialog settings
        (Params.mk dialog_type dialog_id
           (if dialog_type =? "inline" then "" else source) img_alt None) ;;
    match dlg with
    | None => ret tt
    | Some dlg => show_modal dlg
    end.

(** ** [init] (lines 65-113) *)

(** Lines 78-91: the type of a dialog read off its source, [None] when no
    pattern matches. *)
Definition infer_dialog_type (src : string) : option string :=
  if Regex.image_re src then Some "image"
  else if Regex.video_re src then Some "video"
  else if Regex.pdf_re src then Some "iframe"
  else if Js.first_char_is "#" src then Some "inline"
  else None.

(** Lines 69-91: the type and the source of a trigger, or the reason it
    has none. *)
Inductive resolution : Type :=
| MissingSource
| UndeterminedKind (src : string)
| Resolved (dialog_type src : string).

(** Lines 71-72: the [href] of the trigger, else its [data-target]. *)
Definition trigger_source (el : trigger) : option string :=
  match Js.truthy_value (href el) with
  | Some h => Some h
  | None => Js.truthy_value (data_target el)
  end.

Definition resolve (el : trigger) : resolution :=
  match trigger_source el with
  | None => MissingSource
  | Some src =>
      match Js.truthy_value (data_type el) with
      | Some dialog_type => Resolved dialog_type src
      | None =>
          match infer_dialog_type src with
          | Some dialog_type => Resolved dialog_type src
          | None => UndeterminedKind src
          end
      end
  end.

(** Lines 94-100: the object passed to [create_dialog]. *)
Definition trigger_params (settings : Settings.t) (el : trigger)
  (dialog_type dialog_id src : string) : Params.t :=
  Params.mk dialog_type dialog_id src
    (match Js.truthy_value (data_img_alt el) with
     | Some alt => alt
     | None => ""
     end)
    (match Js.truthy_value (data_close_btn_txt el) with
     | Some txt => Some txt
     | None => Some (Settings.close_button_text settings)
     end).

(** Line 106. *)
Definition rewrite_href (dialog_id : string) (el : trigger) : trigger :=
  mk_trigger (data_type el) (Some ("#" ++ dialog_id)) (data_target el)
    (data_img_alt el) (data_close_btn_txt el).

(** The callback of [forEach] on one trigger: the trigger as it leaves
    it, and the dialog its click listener shows ([None]: the trigger was
    skipped and has no listener). *)
Definition init_trigger (settings : Settings.t) (el : trigger)
  : action (trigger * option Dom.path) :=
  match resolve el with
  | MissingSource =>
      console_error
        "Could not determine the dialog source. Please set the attribute 'href' or 'data-target'" ;;;
      ret (el, None)
  | UndeterminedKind src =>
      console_error
        ("Could not determine the dialog type for " ++ src
         ++ ". Please specify the attribute 'data-type' or 'href'.") ;;;
      ret (el, None)
  | Resolved dialog_type src =>
      dialog_id <-
        (if (dialog_type =? "inline") && Js.truthy src
         then ret (Js.substring 1 src)
         else call_generate_dialog_id dialog_type) ;;
      dlg <-
        create_dialog settings
          (trigger_params settings el dialog_type dialog_id src) ;;
      match dlg with
      | None => ret (el, None)
      | Some dlg =>
          ret (match Js.truthy_value (href el) with
               | Some _ => rewrite_href dialog_id el
               | None => el
               end,
               Some dlg)
      end
  end.

(** [init] on the triggers the selector finds, in document order. *)
Fixpoint init (settings : Settings.t) (els : list trigger)
  : action (list (trigger * option Dom.path)) :=
  match els with
  | [] => ret []
  | el :: rest =>
      r <- init_trigger settings el ;;
      rs <- init settings rest ;;
      ret (r :: rs)
  end.

(** ** The [keydown] listener (lines 40-61) *)

(** [dialog[open]] *)
Definition dialog_open (e : Dom.element) : bool :=
  Dom.has_tag "dialog" e && Dom.has_attribute "open" e.

(** Line 46: [button,input,select,textarea,iframe,area,a] and any
    element whose [tabindex] is 0. *)
Definition focusable_selector (e : Dom.element) : bool :=
  existsb (fun t => Dom.has_tag t e)
    ["button"; "input"; "select"; "textarea"; "iframe"; "area"; "a"]
  || match Dom.lookup_attribute "tabindex" (Dom.attributes e) with
     | Some v => v =? "0"
     | None => false
     end.

(** [dialog.querySelectorAll(...)]: the descendants of the dialog the
    selector matches, in tree order. *)
Definition dialog_focusables (d : Dom.nodes) (dialog : Dom.path)
  : list Dom.path :=
  match Dom.node_at d dialog with
  | Some (_, kids) =>
      map (fun p => (dialog ++ p)%list) (Dom.find_all focusable_selector kids)
  | None => []
  end.

(** Lines 50-53 and 56-59: one of the two inner [if]s.  The value is
    whether [preventDefault] was called. *)
Definition wrap_focus (at_end to : option Dom.path) : action bool :=
  fun p =>
    if Dom.same_node (active_element p) at_end then
      (focus to ;;; ret true) p
    else Normal false p.

(** The listener.  Its value is whether the default action of the key
    was cancelled. *)
Definition keydown (e : keyboard_event) : action bool :=
  d <- read_document ;;
  match Dom.find_first dialog_open d with
  | None => ret false
  | Some dialog =>
      let focusables := dialog_focusables d dialog in
      let first_focus := Dom.item focusables 0 in
      let last_focus := Dom.last_item focusables in
      prevented1 <-
        (if negb (shiftKey e) && (key e =? "Tab")
         then wrap_focus last_focus first_focus
         else ret false) ;;
      prevented2 <-
        (if shiftKey e && (key e =? "Tab")
         then wrap_focus first_focus last_focus
         else ret false) ;;
      ret (prevented1 || prevented2)
  end.

End EqDialog.

(** A stand-in for the browser, for running the model: its parser keeps
    the markup as one text node, its serializer writes nothing, it takes
    every style declaration as it is given, and every element is a
    focusable area and sequentially focusable. *)
Definition plain_browser : Browser :=
  mk_browser
    (fun html => Dom.text_node html Dom.no_nodes)
    (fun _ => "")
    set_property
    (fun _ => true)
    (fun _ => true).

(* ================================================================== *)
(** * The constructor (lines 27-37) *)
(* ================================================================== *)

(** The options a caller passes, by the names the class recognizes; a
    field is [None] when the caller left the option out. *)
Module Options.
Record t : Type := mk {
  selector : option string;
  show_close_button : option bool;
  close_button_text : option string;
  remove_inline_content : option bool;
  style : option (list (string * string))
}.
End Options.

(** Lines 33-35.  Line 31 has made [settings.style] the object
    [options.style] itself, so the loop reads and writes one shared
    object: for each of its property names, the value found under the
    name is assigned under the name. *)
Definition copy_style_names (style : list (string * string))
  : list (string * string) :=
  fold_left
    (fun shared name =>
       match Dom.lookup_attribute name shared with
       | Some value => set_property name value shared
       | None => shared
       end)
    (map fst style) style.

Definition option_or {A : Type} (given : option A) (default : A) : A :=
  match given with
  | Some a => a
  | None => default
  end.

(** The settings of [new EqDialog(options)]: a copy of the defaults
    (line 28) in which every option given has taken the place of the
    default of its name (lines 30-31), the style as a whole. *)
Definition constructor (options : Options.t) : Settings.t :=
  Settings.mk
    (option_or (Options.selector options)
       (Settings.selector eq_dialog_defaults))
    (option_or (Options.show_close_button options)
       (Settings.show_close_button eq_dialog_defaults))
    (option_or (Options.close_button_text options)
       (Settings.close_button_text eq_dialog_defaults))
    (option_or (Options.remove_inline_content options)
       (Settings.remove_inline_content eq_dialog_defaults))
    (match Options.style options with
     | Some style => copy_style_names style
     | None => Settings.style eq_dialog_defaults
     end).

(* ================================================================== *)
(** * The vocabulary of the claims *)
(* ================================================================== *)

(** A message on the console. *)
Definition logged (msg : string) (p : page) : page :=
  mk_page (document p) (console p ++ [msg]) (focused p).

(** The page with another document. *)
Definition with_document (d : Dom.nodes) (p : page) : page :=
  mk_page d (console p) (focused p).

(** An element of the document carries the id [key]. *)
Definition id_in_document (key : string) (d : Dom.nodes) : Prop :=
  exists e, In e (Dom.elements d) /\ Dom.id_attr e = Some key.

Section Browsing.

Context {browser : Browser}.

(** The browser moves the focus to the element at [t] when asked to. *)
Definition can_focus (p : page) (t : Dom.path) : bool :=
  match Dom.node_at (document p) t with
  | Some (e, _) => focusable_area e
  | None => false
  end.

(** The markup [create_dialog] parses into the modal when it is called
    with [params] on the document [d]. *)
Definition materialized_content (settings : Settings.t) (params : Params.t)
  (d : Dom.nodes) : string :=
  dialog_content settings params
    (if Params.dialog_type params =? "inline" then
       match Dom.get_element_by_id (Params.dialog_id params) d with
       | Some inline_div => inline_html d inline_div
       | None => ""
       end
     else "").

(** The page with the focus on the element at [t]. *)
Definition with_focus (t : Dom.path) (p : page) : page :=
  mk_page (document p) (console p) (Some t).

End Browsing.

(** Why [init] gives a trigger no modal on the document [d]: it has no
    source, its kind cannot be told, or it is inline and no element has
    the id it names. *)
Definition skipped_on (d : Dom.nodes) (el : trigger) : Prop :=
  resolve el = MissingSource
  \/ (exists src, resolve el = UndeterminedKind src)
  \/ (exists src,
        resolve el = Resolved "inline" src
        /\ Dom.get_element_by_id (Js.substring 1 src) d = None).

(** The triggers of a result of [init] that were given no modal. *)
Definition skipped (results : list (trigger * option Dom.path))
  : list (trigger * option Dom.path) :=
  filter (fun r => match snd r with None => true | Some _ => false end)
    results.

(** The character [c] does not occur in [s]. *)
Fixpoint free_of (c : ascii) (s : string) : bool :=
  match s with
  | EmptyString => true
  | String a s' => negb (Ascii.eqb a c) && free_of c s'
  end.

(** The close button of line 20 with [label] for its accessible name. *)
Definition close_button_head : string :=
  "<form class=" ++ Js.quoted "eq-close-btn"
  ++ " method=" ++ Js.quoted "dialog"
  ++ "><button autofocus aria-label=" ++ Js.dquote.

Definition close_button_tail : string := Js.dquote ++ "></button></form>".

Definition close_button_with_label (label : string) : string :=
  close_button_head ++ label ++ close_button_tail.

(** The player of lines 21-24 with [source] for the address of the
    medium, [type] for its media type and [link] for the address of the
    download link. *)
Definition player_head : string :=
  "<video class=" ++ Js.quoted "eq-dialog-video" ++ " controls autoplay>"
  ++ "<source src=" ++ Js.dquote.

Definition player_type : string := Js.dquote ++ " type=" ++ Js.dquote.

Definition player_tail (link : string) : string :=
  Js.dquote ++ " />"
  ++ "Sorry, your browser doesn't support embedded videos, <a href="
  ++ Js.quoted link
  ++ ">download</a> and watch with your favorite video player!"
  ++ "</video>".

Definition player (source type link : string) : string :=
  player_head ++ source ++ player_type ++ type ++ player_tail link.

(** A source with its letters in upper case, as the [i] flag compares
    it. *)
Fixpoint upper_case (s : string) : string :=
  match s with
  | EmptyString => EmptyString
  | String c s' => String (Regex.canonicalize c) (upper_case s')
  end.

(** ** The patterns of the resolver, as the spec words them *)

(** The kinds of a source are worded on its code units, so that every
    JavaScript string has one reading. *)
Module Spec.





(** The extensions of the three media kinds.  (For images the spec lists
    jpg, jpeg, gif, png, bmp, webp, svg and ico, the first of them twice;
    jpe is an image extension as well.) *)
Definition image_extensions : list string :=
  ["jpg"; "jpeg"; "jpe"; "gif"; "png"; "bmp"; "webp"; "svg"; "ico"].

Definition video_extensions : list string := ["mp4"; "mov"; "ogg"; "webm"].

Definition document_extensions : list string := ["pdf"].






End Spec.


(** ** The claims that fail, as they are stated *)

(** C2 as the claim states it: a second call returns the element of the
    first and leaves the document as the first left it. *)
Definition materialize_idempotent (browser : Browser) (settings : Settings.t)
  (params : Params.t) (p : page) : Prop :=
  forall dlg1 p1 r2 p2,
    create_dialog settings params p = Normal (Some dlg1) p1 ->
    create_dialog settings params p1 = Normal r2 p2 ->
    r2 = Some dlg1 /\ document p2 = document p1.

(** C5 as the claim states it: a key-down that is neither Tab without any
    modifier nor Tab with Shift goes through, the page unchanged. *)
Definition other_keys_pass_through (browser : Browser) (e : keyboard_event)
  (p : page) : Prop :=
  ~ (key e = "Tab" /\ shiftKey e = false /\ ctrlKey e = false
     /\ altKey e = false /\ metaKey e = false) ->
  ~ (key e = "Tab" /\ shiftKey e = true) ->
  keydown e p = Normal false p.

(** C10 as the claim states it: the id that [init] generates for a
    trigger, and writes into its href, is once the modal is attached the
    id of no element of the document, and [generate_dialog_id] returns it
    again. *)
Definition generated_id_unregistered (browser : Browser)
  (settings : Settings.t) (el : trigger) (p : page) : Prop :=
  forall kind src id el' dlg p',
    resolve el = Resolved kind src ->
    kind <> "inline" ->
    generate_dialog_id (document p) kind = Some id ->
    init_trigger settings el p = Normal (el', Some dlg) p' ->
    ~ id_in_document id (document p')
    /\ generate_dialog_id (document p') kind = Some id.

(** ** Sample pages *)

(** A page whose body holds [content]. *)
Definition page_with (content : Dom.nodes) (focus_on : option Dom.path) : page :=
  mk_page
    (Dom.element_node (Dom.mk_element "html" None [] [])
       (Dom.element_node (Dom.mk_element "head" None [] []) Dom.no_nodes
          (Dom.element_node (Dom.mk_element "body" None [] []) content
             Dom.no_nodes))
       Dom.no_nodes)
    [] focus_on.

(** A page with a fragment whose id is details. *)
Definition details_page : page :=
  page_with
    (Dom.element_node (Dom.mk_element "div" (Some "details") [] [])
       (Dom.text_node "More about it." Dom.no_nodes)
       Dom.no_nodes)
    None.

Definition image_params : Params.t :=
  Params.mk "image" "image-dialog-0" "photo.png" "" (Some "Close dialog").

Definition details_params : Params.t :=
  Params.mk "inline" "details" "" "" (Some "Close dialog").

Definition missing_params : Params.t :=
  Params.mk "inline" "nowhere" "" "" (Some "Close dialog").

(** A page with an open dialog that holds a close button and a link,
    the focus being on the link, the last of the two. *)
Definition open_dialog_page : page :=
  page_with
    (Dom.element_node
       (Dom.mk_element "dialog" None
          [("open", ""); ("class", "eq-dialog-wrapper")] [])
       (Dom.element_node
          (Dom.mk_element "div" None [("class", "eq-dialog-inner")] [])
          (Dom.element_node
             (Dom.mk_element "form" None [("class", "eq-close-btn")] [])
             (Dom.element_node
                (Dom.mk_element "button" None [("aria-label", "Close dialog")] [])
                Dom.no_nodes Dom.no_nodes)
             (Dom.element_node
                (Dom.mk_element "a" None [("href", "more.html")] [])
                (Dom.text_node "More" Dom.no_nodes)
                Dom.no_nodes))
          Dom.no_nodes)
       Dom.no_nodes)
    (Some [0; 1; 0; 0; 1]).

(** A page with an open dialog that holds text only. *)
Definition bare_dialog_page : page :=
  page_with
    (Dom.element_node
       (Dom.mk_element "dialog" None [("open", "")] [])
       (Dom.text_node "Nothing to focus." Dom.no_nodes)
       Dom.no_nodes)
    None.

Definition tab_key (shift ctrl : bool) : keyboard_event :=
  mk_keyboard_event "Tab" shift ctrl false false.

(** A page whose body has been removed: its document element holds the
    head and, after it, a fragment whose id is details. *)
Definition bodyless_page : page :=
  mk_page
    (Dom.element_node (Dom.mk_element "html" None [] [])
       (Dom.element_node (Dom.mk_element "head" None [] []) Dom.no_nodes
          (Dom.element_node (Dom.mk_element "div" (Some "details") [] [])
             (Dom.text_node "More about it." Dom.no_nodes)
             Dom.no_nodes))
       Dom.no_nodes)
    [] None.

(** A page with an open dialog that holds a text field and a link, the
    focus being on the link. *)
Definition form_dialog_page : page :=
  page_with
    (Dom.element_node
       (Dom.mk_element "dialog" None [("open", "")] [])
       (Dom.element_node
          (Dom.mk_element "input" None [("disabled", "")] [])
          Dom.no_nodes
          (Dom.element_node
             (Dom.mk_element "a" None [("href", "more.html")] [])
             (Dom.text_node "More" Dom.no_nodes)
             Dom.no_nodes))
       Dom.no_nodes)
    (Some [0; 1; 0; 1]).

(** Triggers: a link to an image, a button for the fragment of the sample
    page, and a button for a fragment that is nowhere. *)
Definition photo_link : trigger :=
  mk_trigger None (Some "photo.png") None (Some "A photo") None.

Definition details_button : trigger :=
  mk_trigger None None (Some "#details") None None.

Definition nowhere_button : trigger :=
  mk_trigger None None (Some "#nowhere") None None.

(** A link to an image whose alt text closes the attribute it is written
    into and goes on with an id. *)
Definition sly_alt : string := Js.dquote ++ " id=" ++ Js.dquote ++ "image-dialog-0".

Definition sly_link : trigger :=
  mk_trigger None (Some "photo.png") None (Some sly_alt) None.

(** ** A browser for the samples *)

(** The close button as the HTML parser reads it. *)
Definition parsed_close_button (label : string) (siblings : Dom.nodes)
  : Dom.nodes :=
  Dom.element_node
    (Dom.mk_element "form" None
       [("class", "eq-close-btn"); ("method", "dialog")] [])
    (Dom.element_node
       (Dom.mk_element "button" None
          [("autofocus", ""); ("aria-label", label)] [])
       Dom.no_nodes Dom.no_nodes)
    siblings.

(** The markup of three modals, and what the HTML parser makes of each:
    the player of clip.mp4 as [open] builds it, the fragment of the sample
    page as [open] builds it, and the image of the link with the sly alt
    text as [init] builds it, in which the alt text has become an empty
    [alt] and an [id]. *)
Definition video_sample : string :=
  close_button_with_label "undefined"
  ++ player "clip.mp4" "video/mp4" "{{src}}".

Definition video_sample_parsed : Dom.nodes :=
  parsed_close_button "undefined"
    (Dom.element_node
       (Dom.mk_element "video" None
          [("class", "eq-dialog-video"); ("controls", ""); ("autoplay", "")]
          [])
       (Dom.element_node
          (Dom.mk_element "source" None
             [("src", "clip.mp4"); ("type", "video/mp4")] [])
          Dom.no_nodes
          (Dom.text_node
             "Sorry, your browser doesn't support embedded videos, "
             (Dom.element_node
                (Dom.mk_element "a" None [("href", "{{src}}")] [])
                (Dom.text_node "download" Dom.no_nodes)
                (Dom.text_node
                   " and watch with your favorite video player!"
                   Dom.no_nodes))))
       Dom.no_nodes).

Definition details_sample : string :=
  close_button_with_label "undefined" ++ "More about it.".

Definition details_sample_parsed : Dom.nodes :=
  parsed_close_button "undefined"
    (Dom.text_node "More about it." Dom.no_nodes).

Definition sly_sample : string :=
  close_button_with_label "Close dialog"
  ++ "<img src=" ++ Js.quoted "photo.png"
  ++ " alt=" ++ Js.quoted "" ++ " id=" ++ Js.quoted "image-dialog-0" ++ ">".

Definition sly_sample_parsed : Dom.nodes :=
  parsed_close_button "Close dialog"
    (Dom.element_node
       (Dom.mk_element "img" (Some "image-dialog-0")
          [("src", "photo.png"); ("alt", "")] [])
       Dom.no_nodes Dom.no_nodes).

(** The text of the text nodes among a list of siblings. *)
Fixpoint text_of (d : Dom.nodes) : string :=
  match d with
  | Dom.no_nodes => ""
  | Dom.text_node data rest => data ++ text_of rest
  | Dom.element_node _ _ rest => text_of rest
  end.

(** A browser that knows the samples: its parser reads the three
    markups above and keeps any other as text; its serializer writes the
    text of text nodes (the fragment of the sample page holds nothing
    else); it takes a width given in pixels as 600px and drops every other
    style declaration; buttons and links are its focusable areas, and are
    sequentially focusable. *)
Definition sample_browser : Browser :=
  mk_browser
    (fun html =>
       if html =? video_sample then video_sample_parsed
       else if html =? details_sample then details_sample_parsed
       else if html =? sly_sample then sly_sample_parsed
       else Dom.text_node html Dom.no_nodes)
    text_of
    (fun name value declared =>
       if (name =? "width") && (value =? "600px")
       then set_property name value declared
       else declared)
    (fun e => Dom.has_tag "button" e || Dom.has_tag "a" e)
    (fun e => Dom.has_tag "button" e || Dom.has_tag "a" e).

(* ================================================================== *)
(** * Facts about strings *)
(* ================================================================== *)

Lemma append_inj_l (a x y : string) : a ++ x = a ++ y -> x = y.
Proof.
  induction a as [|c a IH]; simpl; intros E.
  - exact E.
  - injection E as E. auto.
Qed.

(** The decimal digits of a number determine it. *)
Lemma number_to_string_inj (m n : nat) :
  Js.number_to_string m = Js.number_to_string n -> m = n.
Proof.
  unfold Js.number_to_string. intros E.
  apply (f_equal NilEmpty.uint_of_string) in E.
  rewrite !NilEmpty.usu in E.
  injection E as E.
  apply (f_equal Nat.of_uint) in E.
  now rewrite !DecimalNat.Unsigned.of_to in E.
Qed.

Lemma candidate_id_inj (kind : string) (m n : nat) :
  candidate_id kind m = candidate_id kind n -> m = n.
Proof.
  unfold candidate_id. intros E.
  apply append_inj_l in E. apply append_inj_l in E.
  now apply number_to_string_inj.
Qed.

Lemma candidate_id_not_empty (kind : string) (n : nat) :
  (candidate_id kind n =? "") = false.
Proof.
  apply String.eqb_neq. unfold candidate_id.
  destruct kind; discriminate.
Qed.

(* ================================================================== *)
(** * Facts about the document *)
(* ================================================================== *)


Lemma has_id_true (key : string) (e : Dom.element) :
  Dom.has_id key e = true <-> Dom.id_attr e = Some key.
Proof.
  unfold Dom.has_id. destruct (Dom.id_attr e) as [i|].
  - rewrite String.eqb_eq. split; [now intros -> | now intros [= ->]].
  - split; discriminate.
Qed.

Lemma find_first_none (P : Dom.element -> bool) (d : Dom.nodes) :
  Dom.find_first P d = None <->
  forall e, In e (Dom.elements d) -> P e = false.
Proof.
  induction d as [|s rest IHr|e kids IHk rest IHr]; simpl.
  - split; [intros _ e [] | reflexivity].
  - destruct (Dom.find_first P rest) as [q|]; simpl.
    + split; [discriminate|]. intros H. apply IHr in H. discriminate.
    + split; [|reflexivity]. intros _. now apply IHr.
  - destruct (P e) eqn:Pe.
    + split; [discriminate|]. intros H.
      rewrite (H e) in Pe by now left. discriminate.
    + destruct (Dom.find_first P kids) as [q|].
      * split; [discriminate|]. intros H.
        assert (E : Some q = None); [|discriminate].
        apply IHk. intros x Hx. apply H. right. apply in_or_app. now left.
      * destruct (Dom.find_first P rest) as [q|]; simpl.
        -- split; [discriminate|]. intros H.
           assert (E : Some q = None); [|discriminate].
           apply IHr. intros x Hx. apply H. right. apply in_or_app. now right.
        -- split; [|reflexivity]. intros _ x [<-|Hx]; [exact Pe|].
           apply in_app_or in Hx. destruct Hx as [Hx|Hx].
           ++ now apply (proj1 IHk).
           ++ now apply (proj1 IHr).
Qed.

Lemma find_first_some (P : Dom.element -> bool) (d : Dom.nodes) (p : Dom.path) :
  Dom.find_first P d = Some p ->
  exists e kids, Dom.node_at d p = Some (e, kids) /\ P e = true.
Proof.
  revert p.
  induction d as [|s rest IHr|e kids IHk rest IHr]; simpl; intros p H.
  - discriminate.
  - destruct (Dom.find_first P rest) as [q|]; [|discriminate].
    injection H as <-. destruct (IHr q eq_refl) as (e & k & Hn & Pe).
    exists e, k. split; [|exact Pe].
    destruct q as [|i q]; [destruct rest; discriminate|exact Hn].
  - destruct (P e) eqn:Pe.
    + injection H as <-. now exists e, kids.
    + destruct (Dom.find_first P kids) as [q|].
      * injection H as <-. destruct (IHk q eq_refl) as (x & k & Hn & Px).
        exists x, k. split; [|exact Px].
        destruct q as [|i q]; [destruct kids; discriminate|exact Hn].
      * destruct (Dom.find_first P rest) as [q|]; [|discriminate].
        injection H as <-. destruct (IHr q eq_refl) as (x & k & Hn & Px).
        exists x, k. split; [|exact Px].
        destruct q as [|i q]; [destruct rest; discriminate|exact Hn].
Qed.

Lemma node_at_in (d : Dom.nodes) (p : Dom.path) (e : Dom.element)
  (kids : Dom.nodes) :
  Dom.node_at d p = Some (e, kids) -> In e (Dom.elements d).
Proof.
  revert p.
  induction d as [|s rest IHr|x k IHk rest IHr]; intros p H.
  - discriminate.
  - destruct p as [|[|i] p]; simpl in H; try discriminate.
    simpl. eauto.
  - destruct p as [|[|i] p]; simpl in H; try discriminate.
    + destruct p as [|j p].
      * injection H as <- <-. now left.
      * simpl. right. apply in_or_app. left. eauto.
    + simpl. right. apply in_or_app. right. eauto.
Qed.

(** [getElementById] finds an element exactly when one carries the id. *)
Lemma get_element_by_id_none (key : string) (d : Dom.nodes) :
  (key =? "") = false ->
  (Dom.get_element_by_id key d = None <-> ~ id_in_document key d).
Proof.
  intros Hk. unfold Dom.get_element_by_id, id_in_document. rewrite Hk.
  rewrite find_first_none. split.
  - intros H (e & He & Hid). apply has_id_true in Hid.
    rewrite (H e He) in Hid. discriminate.
  - intros H e He. destruct (Dom.has_id key e) eqn:E; [|reflexivity].
    exfalso. apply H. exists e. split; [exact He | now apply has_id_true].
Qed.

Lemma get_element_by_id_some (key : string) (d : Dom.nodes) (p : Dom.path) :
  Dom.get_element_by_id key d = Some p ->
  exists e kids,
    Dom.node_at d p = Some (e, kids) /\ Dom.id_attr e = Some key.
Proof.
  unfold Dom.get_element_by_id. destruct (key =? ""); [discriminate|].
  intros H. apply find_first_some in H. destruct H as (e & k & Hn & He).
  exists e, k. split; [exact Hn | now apply has_id_true].
Qed.

(** ** The loop of [generate_dialog_id] returns *)

(** Ids taken by the first [n] candidates are [n] different ids of the
    document, so [n] is at most the number of its elements. *)
Lemma taken_candidates_bound (d : Dom.nodes) (kind : string) (n : nat) :
  (forall j, j < n -> Dom.get_element_by_id (candidate_id kind j) d <> None) ->
  n <= length (Dom.elements d).
Proof.
  intros Htaken.
  set (ids := map Dom.id_attr (Dom.elements d)).
  set (cands := map (fun j => Some (candidate_id kind j)) (seq 0 n)).
  assert (Hlen : length cands <= length ids).
  { apply NoDup_incl_length.
    - unfold cands. apply Injective_map_NoDup; [|apply seq_NoDup].
      intros a b [= E]. now apply candidate_id_inj in E.
    - intros x Hx. unfold cands in Hx. apply in_map_iff in Hx.
      destruct Hx as (j & <- & Hj). apply in_seq in Hj.
      destruct (Dom.get_element_by_id (candidate_id kind j) d) as [p|] eqn:G.
      + apply get_element_by_id_some in G. destruct G as (e & k & Hn & Hid).
        unfold ids. rewrite <- Hid. apply in_map. eapply node_at_in; eauto.
      + exfalso. apply (Htaken j); [lia | exact G]. }
  unfold cands, ids in Hlen. now rewrite !length_map, length_seq in Hlen.
Qed.

Lemma generate_loop_returns (d : Dom.nodes) (kind : string) (fuel index : nat) :
  (forall j, j < index ->
     Dom.get_element_by_id (candidate_id kind j) d <> None) ->
  length (Dom.elements d) <= index + fuel ->
  exists n,
    generate_loop d kind fuel index = Some (candidate_id kind n)
    /\ Dom.get_element_by_id (candidate_id kind n) d = None
    /\ forall j, j < n ->
         Dom.get_element_by_id (candidate_id kind j) d <> None.
Proof.
  revert index.
  induction fuel as [|fuel IH]; intros index Htaken Hfuel; simpl;
    destruct (Dom.get_element_by_id (candidate_id kind index) d) as [p|] eqn:G;
    try (exists index; now repeat split).
  - exfalso.
    assert (S index <= length (Dom.elements d)); [|lia].
    apply (taken_candidates_bound d kind). intros j Hj.
    destruct (Nat.eq_dec j index) as [->|]; [now rewrite G|].
    apply Htaken. lia.
  - apply IH; [|lia]. intros j Hj.
    destruct (Nat.eq_dec j index) as [->|]; [now rewrite G|].
    apply Htaken. lia.
Qed.

Lemma generate_dialog_id_returns (d : Dom.nodes) (kind : string) :
  exists n,
    generate_dialog_id d kind = Some (candidate_id kind n)
    /\ Dom.get_element_by_id (candidate_id kind n) d = None
    /\ forall j, j < n ->
         Dom.get_element_by_id (candidate_id kind j) d <> None.
Proof.
  apply generate_loop_returns; [intros j Hj; lia | lia].
Qed.

(** The call never runs out of fuel. *)
Lemma call_generate_dialog_id_returns (kind : string) (p : page) :
  exists id, call_generate_dialog_id kind p = Normal id p.
Proof.
  unfold call_generate_dialog_id.
  destruct (generate_dialog_id_returns (document p) kind) as (n & -> & _).
  now eexists.
Qed.

(** ** Counting through the DOM operations *)

(** Induction on the document along a path [p] that leads to an element
    ([H]); what is left are the cases of an element node: the path stops
    there, goes into its children, or goes on to a sibling. *)
Ltac along_path d p H :=
  revert p H;
  induction d as [|s rest IHr|x k IHk rest IHr]; intros p H;
  [ discriminate
  | destruct p as [|[|i] [|j q]]; simpl in *; try discriminate; eauto
  | destruct p as [|[|i] [|j q]]; simpl in *; try discriminate;
    [ injection H as -> ->
    | specialize (IHk _ H)
    | specialize (IHr _ H)
    | specialize (IHr _ H) ] ].

Lemma count_zero (P : Dom.element -> bool) (d : Dom.nodes) :
  Dom.count P d = 0 <-> Dom.find_first P d = None.
Proof.
  rewrite find_first_none.
  induction d as [|s rest IHr|e kids IHk rest IHr]; simpl.
  - split; [intros _ e [] | reflexivity].
  - exact IHr.
  - split.
    + intros H x [<-|Hx].
      * destruct (P e); [simpl in H; lia | reflexivity].
      * apply in_app_or in Hx. destruct Hx; [apply IHk | apply IHr]; auto; lia.
    + intros H. rewrite (H e) by now left.
      rewrite (proj2 IHk), (proj2 IHr); auto;
        intros x Hx; apply H; right; apply in_or_app; auto.
Qed.

Lemma count_all (d : Dom.nodes) :
  Dom.count (fun _ => true) d = length (Dom.elements d).
Proof.
  induction d as [|s rest IHr|e kids IHk rest IHr]; simpl; auto.
  rewrite length_app. lia.
Qed.

Lemma count_positive (key : string) (d : Dom.nodes) :
  id_in_document key d <-> 0 < Dom.count (Dom.has_id key) d.
Proof.
  split.
  - intros (e & He & Hid).
    destruct (Dom.count (Dom.has_id key) d) eqn:C; [|lia].
    apply count_zero in C. rewrite find_first_none in C.
    apply has_id_true in Hid. rewrite (C e He) in Hid. discriminate.
  - intros H. destruct (Dom.find_first (Dom.has_id key) d) as [p|] eqn:F.
    + apply find_first_some in F. destruct F as (e & k & Hn & He).
      exists e. split; [eapply node_at_in; eauto | now apply has_id_true].
    + apply count_zero in F. lia.
Qed.

Lemma count_append_nodes (P : Dom.element -> bool) (a b : Dom.nodes) :
  Dom.count P (Dom.append_nodes a b) = Dom.count P a + Dom.count P b.
Proof.
  induction a as [|s rest IHr|e kids IHk rest IHr]; simpl; auto. lia.
Qed.

Lemma count_append_child (P : Dom.element -> bool) (d : Dom.nodes)
  (p : Dom.path) (new : Dom.nodes) (e : Dom.element) (kids : Dom.nodes) :
  Dom.node_at d p = Some (e, kids) ->
  Dom.count P (Dom.append_child d p new) = Dom.count P d + Dom.count P new.
Proof.
  intros H. along_path d p H; try rewrite count_append_nodes; lia.
Qed.

Lemma count_update_at (P : Dom.element -> bool) (f : Dom.element -> Dom.element)
  (d : Dom.nodes) (p : Dom.path) (e : Dom.element) (kids : Dom.nodes) :
  Dom.node_at d p = Some (e, kids) ->
  Dom.count P (Dom.update_at f d p) + (if P e then 1 else 0)
  = Dom.count P d + (if P (f e) then 1 else 0).
Proof.
  intros H. along_path d p H; lia.
Qed.

Lemma count_remove_at (P : Dom.element -> bool) (d : Dom.nodes)
  (p : Dom.path) (e : Dom.element) (kids : Dom.nodes) :
  Dom.node_at d p = Some (e, kids) ->
  Dom.count P (Dom.remove_at d p) + (if P e then 1 else 0) + Dom.count P kids
  = Dom.count P d.
Proof.
  intros H. along_path d p H; lia.
Qed.

Lemma node_at_update_at (f : Dom.element -> Dom.element) (d : Dom.nodes)
  (p : Dom.path) (e : Dom.element) (kids : Dom.nodes) :
  Dom.node_at d p = Some (e, kids) ->
  Dom.node_at (Dom.update_at f d p) p = Some (f e, kids).
Proof.
  intros H. along_path d p H; auto.
Qed.

Lemma node_at_append_child (d : Dom.nodes) (p : Dom.path) (new : Dom.nodes)
  (e : Dom.element) (kids : Dom.nodes) :
  Dom.node_at d p = Some (e, kids) ->
  Dom.node_at (Dom.append_child d p new) p
  = Some (e, Dom.append_nodes kids new).
Proof.
  intros H. along_path d p H; auto.
Qed.

(** A path below an element continues in its children. *)
Lemma node_at_below (d : Dom.nodes) (p below : Dom.path) (e : Dom.element)
  (kids : Dom.nodes) :
  Dom.node_at d p = Some (e, kids) -> below <> [] ->
  Dom.node_at d (p ++ below)%list = Dom.node_at kids below.
Proof.
  intros H Hq.
  along_path d p H;
    try exact (IHr _ H); try exact IHk; try exact IHr.
  destruct below; [contradiction|reflexivity].
Qed.

Lemma node_at_appended (a : Dom.nodes) (e : Dom.element) (kids rest : Dom.nodes) :
  Dom.node_at (Dom.append_nodes a (Dom.element_node e kids rest))
    [Dom.node_count a]
  = Some (e, kids).
Proof.
  induction a as [|s r IHr|x k IHk r IHr]; simpl; auto.
Qed.

Lemma node_count_append_nodes (a b : Dom.nodes) :
  Dom.node_count (Dom.append_nodes a b) = Dom.node_count a + Dom.node_count b.
Proof.
  induction a as [|s r IHr|x k IHk r IHr]; simpl; auto.
Qed.

(** ** The body of the document *)

Lemma first_child_node_at (P : Dom.element -> bool) (d : Dom.nodes) (i : nat)
  (e : Dom.element) (kids : Dom.nodes) :
  Dom.first_child P d = Some (i, e, kids) ->
  Dom.node_at d [i] = Some (e, kids).
Proof.
  revert i.
  induction d as [|s rest IHr|x k IHk rest IHr]; simpl; intros i H.
  - discriminate.
  - destruct (Dom.first_child P rest) as [[[n y] c]|]; [|discriminate].
    injection H as <- <- <-. now apply IHr.
  - destruct (P x).
    + now injection H as <- <- <-.
    + destruct (Dom.first_child P rest) as [[[n y] c]|]; [|discriminate].
      injection H as <- <- <-. now apply IHr.
Qed.

Lemma first_child_append_child (P : Dom.element -> bool) (d : Dom.nodes)
  (i : nat) (e : Dom.element) (kids : Dom.nodes) (below : Dom.path)
  (new : Dom.nodes) :
  Dom.first_child P d = Some (i, e, kids) ->
  Dom.first_child P (Dom.append_child d (i :: below) new)
  = Some (i, e,
          match below with
          | [] => Dom.append_nodes kids new
          | _ :: _ => Dom.append_child kids below new
          end).
Proof.
  revert i.
  induction d as [|s rest IHr|x k IHk rest IHr]; simpl; intros i H.
  - discriminate.
  - destruct (Dom.first_child P rest) as [[[n y] c]|]; [|discriminate].
    injection H as <- <- <-. simpl. now rewrite (IHr n eq_refl).
  - destruct (P x) eqn:Px.
    + injection H as <- <- <-. destruct below; simpl; now rewrite Px.
    + destruct (Dom.first_child P rest) as [[[n y] c]|]; [|discriminate].
      injection H as <- <- <-. simpl. now rewrite Px, (IHr n eq_refl).
Qed.

Lemma body_node_at (d : Dom.nodes) (b : Dom.path) :
  Dom.body d = Some b ->
  exists e kids, Dom.node_at d b = Some (e, kids).
Proof.
  unfold Dom.body, Dom.document_element.
  destruct (Dom.first_child _ d) as [[[i e] kids]|] eqn:D; [|discriminate].
  destruct (Dom.has_tag "html" e); [|discriminate].
  destruct (Dom.first_child _ kids) as [[[j eb] kb]|] eqn:B; [|discriminate].
  intros [= <-]. exists eb, kb.
  apply first_child_node_at in D, B.
  change [i; j] with ([i] ++ [j])%list.
  rewrite (node_at_below d [i] [j] e kids D); [exact B | discriminate].
Qed.

(** Appending to the body leaves the body where it is. *)
Lemma body_append_child (d : Dom.nodes) (b : Dom.path) (new : Dom.nodes) :
  Dom.body d = Some b -> Dom.body (Dom.append_child d b new) = Some b.
Proof.
  unfold Dom.body, Dom.document_element.
  destruct (Dom.first_child _ d) as [[[i e] kids]|] eqn:D; [|discriminate].
  destruct (Dom.has_tag "html" e) eqn:T; [|discriminate].
  destruct (Dom.first_child _ kids) as [[[j eb] kb]|] eqn:B; [|discriminate].
  intros [= <-].
  rewrite (first_child_append_child _ d i e kids [j] new D), T.
  now rewrite (first_child_append_child _ kids j eb kb [] new B).
Qed.

(** A document with an element has a document element. *)
Lemma no_document_element (P : Dom.element -> bool) (d : Dom.nodes) :
  Dom.document_element d = None -> Dom.find_first P d = None.
Proof.
  unfold Dom.document_element.
  induction d as [|s rest IHr|x k IHk rest IHr]; simpl; intros H.
  - reflexivity.
  - destruct (Dom.first_child _ rest) as [[[n y] c]|]; [discriminate|].
    now rewrite IHr.
  - discriminate.
Qed.

(** ** Running a call *)

Ltac run :=
  unfold bind, ret, throw, read_document, write_document, console_error;
  simpl.


(** What [attach] does on a document with a body. *)
Lemma attach_with_body (dialog : Dom.nodes) (p : page) (b : Dom.path)
  (e : Dom.element) (kids : Dom.nodes) :
  Dom.body (document p) = Some b ->
  Dom.node_at (document p) b = Some (e, kids) ->
  attach dialog p
  = Normal (Some (b ++ [Dom.node_count kids])%list)
      (with_document (Dom.append_child (document p) b dialog) p).
Proof.
  intros Hb Hn. unfold attach. run. now rewrite Hb, Hn.
Qed.

Lemma attach_normal (dialog : Dom.nodes) (p p' : page) (r : option Dom.path) :
  attach dialog p = Normal r p' ->
  exists b e kids,
    Dom.body (document p) = Some b
    /\ Dom.node_at (document p) b = Some (e, kids)
    /\ r = Some (b ++ [Dom.node_count kids])%list
    /\ p' = with_document (Dom.append_child (document p) b dialog) p.
Proof.
  unfold attach. run.
  destruct (Dom.body (document p)) as [b|] eqn:Hb; [|discriminate].
  destruct (body_node_at _ _ Hb) as (e & kids & Hn). rewrite Hn.
  intros [= <- <-]. now exists b, e, kids.
Qed.

(** ** The focus *)

Section Focusing.

Context {browser : Browser}.

Lemma focus_completes (t : Dom.path) (p : page) :
  focus (Some t) p = Normal tt (if can_focus p t then with_focus t p else p).
Proof.
  unfold focus, can_focus.
  destruct (Dom.node_at (document p) t) as [[e k]|]; [|reflexivity].
  now destruct (focusable_area e).
Qed.

(** The control of the dialog focusing steps is the dialog or one of its
    descendants. *)
Lemma focus_control_below (d : Dom.nodes) (dlg : Dom.path) (e : Dom.element)
  (kids : Dom.nodes) :
  Dom.node_at d dlg = Some (e, kids) ->
  exists below, focus_control d dlg = Some (dlg ++ below)%list.
Proof.
  intros H. unfold focus_control. rewrite H.
  destruct (Dom.has_attribute "autofocus" e);
    [exists []; now rewrite app_nil_r|].
  destruct (Dom.find_first autofocus_delegate kids) as [q|]; [now exists q|].
  destruct (Dom.find_first sequentially_focusable kids) as [q|];
    [now exists q|].
  exists []. now rewrite app_nil_r.
Qed.

(** [showModal()] on a closed dialog of the document: the dialog is
    open, and the focus is on the control of the dialog focusing steps
    when the browser can focus it. *)
Lemma show_modal_on_closed_dialog (dlg : Dom.path) (e : Dom.element)
  (kids : Dom.nodes) (p : page) :
  Dom.node_at (document p) dlg = Some (e, kids) ->
  Dom.has_attribute "open" e = false ->
  exists below,
    let shown :=
      with_document
        (Dom.update_at (Dom.set_attribute "open" "") (document p) dlg) p in
    focus_control (document shown) dlg = Some (dlg ++ below)%list
    /\ show_modal dlg p
       = Normal tt
           (if can_focus shown (dlg ++ below)%list
            then with_focus (dlg ++ below)%list shown
            else shown).
Proof.
  intros H Hclosed. cbv zeta.
  pose proof (node_at_update_at (Dom.set_attribute "open" "") _ _ _ _ H)
    as Hshown.
  destruct (focus_control_below _ _ _ _ Hshown) as (below & Hc).
  exists below. split; [exact Hc|].
  unfold show_modal, bind, read_document. rewrite H, Hclosed.
  unfold write_document, dialog_focusing_steps, bind, read_document.
  cbn [document]. unfold with_document in Hc. cbn [document] in Hc.
  rewrite Hc. apply focus_completes.
Qed.

End Focusing.

(* ================================================================== *)
(** * The claims *)
(* ================================================================== *)

Section Claims.

Context {browser : Browser}.

(** C1 (the code departs from the claim).  [open] rejects the kinds image
    and iframe whatever the source is, the empty one or not: it reports
    that media dialogs must have a source, creates no modal and leaves the
    document as it was.  Only for the kind video does the guard look at the
    source: a video with a source goes on to [create_dialog]. *)
Theorem open_rejects_image_and_iframe_with_a_source
  (settings : Settings.t) (source img_alt : string) (p : page) :
  open settings "image" source img_alt p
  = Normal tt (logged "Media dialogs must have a source." p)
  /\ open settings "iframe" source img_alt p
     = Normal tt (logged "Media dialogs must have a source." p)
  /\ open settings "image" "photo.png" "" p
     = Normal tt (logged "Media dialogs must have a source." p)
  /\ document (logged "Media dialogs must have a source." p) = document p
  /\ open settings "video" "" img_alt p
     = Normal tt (logged "Media dialogs must have a source." p)
  /\ open settings "inline" "" img_alt p
     = Normal tt (logged "Inline dialogs must have a target." p).
Proof.
  repeat split.
Qed.

(** The kind video, for comparison: with a source the guard of [open]
    lets it through, and the call ends with the new dialog open. *)
Lemma open_video_with_a_source_shows_a_modal (settings : Settings.t) :
  exists p',
    open settings "video" "clip.mp4" "" details_page = Normal tt p'
    /\ Dom.find_first dialog_open (document p') = Some [0; 1; 1]
    /\ console p' = [].
Proof.
  unfold open. simpl. unfold bind, call_generate_dialog_id. simpl.
  unfold create_dialog. simpl. unfold attach, bind, read_document. simpl.
  unfold write_document, ret. simpl.
  match goal with
  | |- exists p', show_modal ?dlg ?q = _ /\ _ =>
      destruct (show_modal_on_closed_dialog dlg dialog_element
                  (Dom.element_node (inner_element settings)
                     (parse_html
                        (dialog_content settings
                           (Params.mk "video" "video-dialog-0" "clip.mp4" ""
                              None) ""))
                     Dom.no_nodes)
                  q eq_refl eq_refl) as (below & _ & ->)
  end.
  eexists. split; [reflexivity|].
  match goal with
  | |- context [if ?c then _ else _] => destruct c
  end; split; reflexivity.
Qed.

(** C3.  On every document and for every kind, [generate_dialog_id]
    returns kind-dialog-n for the least n whose id no element of the
    document carries: the id it returns is not in the document, every
    smaller candidate is, the result is kind-dialog-0 when no candidate is
    taken, and on any later document where the returned id is taken the
    method returns another id. *)
Theorem generate_dialog_id_least_free (d : Dom.nodes) (kind : string) :
  exists n,
    generate_dialog_id d kind
    = Some (kind ++ "-dialog-" ++ Js.number_to_string n)
    /\ ~ id_in_document (kind ++ "-dialog-" ++ Js.number_to_string n) d
    /\ (forall m, m < n ->
          id_in_document (kind ++ "-dialog-" ++ Js.number_to_string m) d)
    /\ ((forall m,
           ~ id_in_document (kind ++ "-dialog-" ++ Js.number_to_string m) d) ->
        generate_dialog_id d kind = Some (kind ++ "-dialog-0"))
    /\ (forall d',
          id_in_document (kind ++ "-dialog-" ++ Js.number_to_string n) d' ->
          generate_dialog_id d' kind <> generate_dialog_id d kind).
Proof.
  destruct (generate_dialog_id_returns d kind) as (n & Hn & Hfree & Hleast).
  fold (candidate_id kind n).
  exists n. split; [exact Hn|]. split; [|split; [|split]].
  - now apply get_element_by_id_none; [apply candidate_id_not_empty|].
  - intros m Hm. specialize (Hleast m Hm). fold (candidate_id kind m).
    destruct (Dom.get_element_by_id (candidate_id kind m) d) as [q|] eqn:G;
      [|contradiction].
    apply get_element_by_id_some in G. destruct G as (e & k & Hat & Hid).
    exists e. split; [eapply node_at_in; eauto | exact Hid].
  - intros Hnone. destruct n as [|n]; [exact Hn|].
    exfalso. apply (Hnone 0). fold (candidate_id kind 0).
    specialize (Hleast 0 (Nat.lt_0_succ n)).
    destruct (Dom.get_element_by_id (candidate_id kind 0) d) as [q|] eqn:G;
      [|contradiction].
    apply get_element_by_id_some in G. destruct G as (e & k & Hat & Hid).
    exists e. split; [eapply node_at_in; eauto | exact Hid].
  - intros d' Htaken.
    destruct (generate_dialog_id_returns d' kind) as (n' & Hn' & Hfree' & _).
    rewrite Hn, Hn'. intros [= E]. apply candidate_id_inj in E. subst n'.
    apply get_element_by_id_none in Hfree';
      [contradiction | apply candidate_id_not_empty].
Qed.

(** A source [init] goes on with is not empty. *)
Lemma truthy_value_truthy (v : option string) (s : string) :
  Js.truthy_value v = Some s -> Js.truthy s = true.
Proof.
  unfold Js.truthy_value. destruct v as [x|]; [|discriminate].
  destruct (Js.truthy x) eqn:T; [|discriminate]. now intros [= <-].
Qed.

Lemma trigger_source_truthy (el : trigger) (src : string) :
  trigger_source el = Some src -> Js.truthy src = true.
Proof.
  unfold trigger_source.
  destruct (Js.truthy_value (href el)) as [h|] eqn:Hh.
  - intros [= <-]. eapply truthy_value_truthy; eauto.
  - apply truthy_value_truthy.
Qed.

Lemma resolved_source (el : trigger) (kind src : string) :
  resolve el = Resolved kind src -> trigger_source el = Some src.
Proof.
  unfold resolve. destruct (trigger_source el) as [s|]; [|discriminate].
  destruct (Js.truthy_value (data_type el)); [now intros [= _ <-]|].
  destruct (infer_dialog_type s); [now intros [= _ <-]|discriminate].
Qed.

(** The two ways [create_dialog] completes normally on inline content. *)
Lemma create_dialog_inline (settings : Settings.t) (params : Params.t)
  (p p' : page) (r : option Dom.path) :
  Params.dialog_type params = "inline" ->
  create_dialog settings params p = Normal r p' ->
  (Dom.get_element_by_id (Params.dialog_id params) (document p) = None
   /\ r = None
   /\ p' = logged ("Unable to find element with ID of '#"
                   ++ Params.dialog_id params ++ "'") p)
  \/ exists frag body eb kb,
       Dom.get_element_by_id (Params.dialog_id params) (document p) = Some frag
       /\ let mid :=
            if Settings.remove_inline_content settings
            then Dom.remove_at (document p) frag
            else Dom.update_at Dom.remove_id (document p) frag in
          Dom.body mid = Some body
          /\ Dom.node_at mid body = Some (eb, kb)
          /\ r = Some (body ++ [Dom.node_count kb])%list
          /\ p' = with_document
                    (Dom.append_child mid body
                       (build_dialog settings
                          (dialog_content settings params
                             (inline_html (document p) frag))))
                    p.
Proof.
  intros Ht. unfold create_dialog. rewrite Ht. simpl. run.
  destruct (Dom.get_element_by_id _ (document p)) as [frag|] eqn:G.
  - intros H. right.
    unfold consume_fragment in H. revert H. run.
    destruct (Settings.remove_inline_content settings); intros H;
      apply attach_normal in H;
      destruct H as (b & eb & kb & Hb & Hn & -> & ->);
      exists frag, b, eb, kb; repeat split; assumption.
  - intros [= <- <-]. left. repeat split.
Qed.

(** How [create_dialog] completes normally on any other content. *)
Lemma create_dialog_media (settings : Settings.t) (params : Params.t)
  (p p' : page) (r : option Dom.path) :
  Params.dialog_type params <> "inline" ->
  create_dialog settings params p = Normal r p' ->
  exists body eb kb,
    Dom.body (document p) = Some body
    /\ Dom.node_at (document p) body = Some (eb, kb)
    /\ r = Some (body ++ [Dom.node_count kb])%list
    /\ p' = with_document
              (Dom.append_child (document p) body
                 (build_dialog settings (dialog_content settings params "")))
              p.
Proof.
  intros Ht. unfold create_dialog.
  apply String.eqb_neq in Ht. rewrite Ht.
  intros H. apply attach_normal in H.
  destruct H as (b & eb & kb & Hb & Hn & -> & ->). now exists b, eb, kb.
Qed.

(** C6.  When the id of inline content names no element of the document,
    [create_dialog] reports that it is unable to find the element, returns
    [false] and leaves the document as it was: no modal is attached.  In
    [init], the trigger of such content is skipped and the triggers after
    it are processed from the same document. *)
Theorem inline_fragment_not_found (settings : Settings.t) (p : page) :
  (forall params,
     Params.dialog_type params = "inline" ->
     Dom.get_element_by_id (Params.dialog_id params) (document p) = None ->
     exists p',
       create_dialog settings params p = Normal None p'
       /\ console p'
          = List.app (console p)
              ["Unable to find element with ID of '#"
               ++ Params.dialog_id params ++ "'"]
       /\ document p' = document p
       /\ focused p' = focused p)
  /\ (forall el rest src,
        resolve el = Resolved "inline" src ->
        Dom.get_element_by_id (Js.substring 1 src) (document p) = None ->
        exists p',
          init_trigger settings el p = Normal (el, None) p'
          /\ document p' = document p
          /\ init settings (el :: rest) p
             = (rs <- init settings rest ;; ret ((el, None) :: rs)) p').
Proof.
  split.
  - intros params Ht Hnone. eexists. unfold create_dialog.
    rewrite Ht. simpl. run. rewrite Hnone. repeat split.
  - intros el rest src Hres Hnone.
    assert (Hsrc : Js.truthy src = true)
      by (eapply trigger_source_truthy, resolved_source; eauto).
    simpl in Hnone. eexists. split; [|split].
    + unfold init_trigger. rewrite Hres. simpl. rewrite Hsrc. run.
      unfold create_dialog. simpl. run. rewrite Hnone. reflexivity.
    + reflexivity.
    + simpl. unfold bind at 1. unfold init_trigger. rewrite Hres. simpl.
      rewrite Hsrc. run. unfold create_dialog. simpl. run. rewrite Hnone.
      reflexivity.
Qed.

(** C7.  A successful inline materialization found its fragment by id and
    did one thing to it, by configuration: with [remove_inline_content]
    the fragment and what it holds left the document; without it the
    fragment is still in its place, with its tag, attributes, style and
    children, and without its id.  Either way the document the modal is
    then attached to is not the one the call started from. *)
Theorem inline_fragment_removed_or_stripped
  (settings : Settings.t) (params : Params.t) (p p' : page) (dlg : Dom.path) :
  Params.dialog_type params = "inline" ->
  create_dialog settings params p = Normal (Some dlg) p' ->
  exists frag e kids mid body,
    Dom.get_element_by_id (Params.dialog_id params) (document p) = Some frag
    /\ Dom.node_at (document p) frag = Some (e, kids)
    /\ Dom.id_attr e = Some (Params.dialog_id params)
    /\ document p'
       = Dom.append_child mid body
           (build_dialog settings
              (dialog_content settings params (inner_html kids)))
    /\ mid <> document p
    /\ if Settings.remove_inline_content settings
       then
         mid = Dom.remove_at (document p) frag
         /\ length (Dom.elements mid) + 1 + length (Dom.elements kids)
            = length (Dom.elements (document p))
       else
         mid = Dom.update_at Dom.remove_id (document p) frag
         /\ Dom.node_at mid frag = Some (Dom.remove_id e, kids)
         /\ length (Dom.elements mid) = length (Dom.elements (document p)).
Proof.
  intros Ht H.
  destruct (create_dialog_inline _ _ _ _ _ Ht H)
    as [(_ & E & _) | (frag & b & eb & kb & G & Hmid)]; [discriminate|].
  destruct (get_element_by_id_some _ _ _ G) as (e & kids & Hat & Hid).
  cbv zeta in Hmid. destruct Hmid as (Hb & Hn & _ & ->).
  assert (Hhtml : inline_html (document p) frag = inner_html kids)
    by (unfold inline_html; now rewrite Hat).
  rewrite Hhtml.
  destruct (Settings.remove_inline_content settings).
  - assert (Hlen :
      length (Dom.elements (Dom.remove_at (document p) frag)) + 1
      + length (Dom.elements kids)
      = length (Dom.elements (document p))).
    { rewrite <- !count_all.
      now rewrite <- (count_remove_at (fun _ => true) _ _ _ _ Hat). }
    exists frag, e, kids, (Dom.remove_at (document p) frag), b.
    repeat split; try assumption.
    intros E. rewrite E in Hlen. lia.
  - pose proof (node_at_update_at Dom.remove_id _ _ _ _ Hat) as Hat'.
    exists frag, e, kids, (Dom.update_at Dom.remove_id (document p) frag), b.
    repeat split; try assumption.
    + intros E. rewrite E, Hat in Hat'. injection Hat' as E'.
      apply (f_equal Dom.id_attr) in E'. simpl in E'. congruence.
    + rewrite <- !count_all.
      pose proof (count_update_at (fun _ => true) Dom.remove_id _ _ _ _ Hat).
      simpl in *. lia.
Qed.

Lemma node_at_append_nodes (a new : Dom.nodes) (q : Dom.path)
  (e : Dom.element) (kids : Dom.nodes) :
  Dom.node_at a q = Some (e, kids) ->
  Dom.node_at (Dom.append_nodes a new) q = Some (e, kids).
Proof.
  intros H. along_path a q H; auto.
Qed.

Lemma count_build_dialog (P : Dom.element -> bool) (settings : Settings.t)
  (content : string) :
  Dom.count P (build_dialog settings content)
  = (if P dialog_element then 1 else 0)
    + (if P (inner_element settings) then 1 else 0)
    + Dom.count P (parse_html content).
Proof.
  simpl. lia.
Qed.

Lemma generate_dialog_id_same_ids (d d' : Dom.nodes) (kind : string) :
  (forall key, id_in_document key d' <-> id_in_document key d) ->
  generate_dialog_id d' kind = generate_dialog_id d kind.
Proof.
  intros Hids.
  assert (Hget : forall n,
    Dom.get_element_by_id (candidate_id kind n) d' = None
    <-> Dom.get_element_by_id (candidate_id kind n) d = None).
  { intros n. rewrite !get_element_by_id_none by apply candidate_id_not_empty.
    now rewrite Hids. }
  destruct (generate_dialog_id_returns d kind) as (n & -> & Hfree & Hleast).
  destruct (generate_dialog_id_returns d' kind) as (n' & -> & Hfree' & Hleast').
  f_equal. f_equal.
  destruct (Nat.lt_total n n') as [Hlt|[E|Hlt]]; [|exact (eq_sym E)|].
  - exfalso. apply (Hleast' n Hlt). now apply Hget.
  - exfalso. apply (Hleast n' Hlt). now apply Hget.
Qed.

(** The element appended to the children of [b] is found after them. *)
Lemma node_at_attached (d : Dom.nodes) (b : Dom.path) (eb e : Dom.element)
  (kb inner : Dom.nodes) :
  Dom.node_at d b = Some (eb, kb) ->
  Dom.node_at (Dom.append_child d b (Dom.element_node e inner Dom.no_nodes))
    (b ++ [Dom.node_count kb])%list
  = Some (e, inner).
Proof.
  intros H.
  rewrite (node_at_below _ b [Dom.node_count kb] eb
             (Dom.append_nodes kb (Dom.element_node e inner Dom.no_nodes)));
    [apply node_at_appended | now apply node_at_append_child | discriminate].
Qed.

Lemma append_one_inj (b : Dom.path) (m n : nat) :
  (b ++ [m])%list = (b ++ [n])%list -> m = n.
Proof.
  intros E. apply app_inv_head in E. now injection E.
Qed.

(** C2 (amended).  Materialization is not idempotent.  After a first
    successful call, a second call with the same parameters: for a kind
    other than inline, builds a second modal element, attaches it after the
    first and returns it, the first staying in the document; for the inline
    kind, when the fragment was the one element with that id and the
    copied markup brings no such id back, finds no fragment, reports it and
    returns [false], so that nothing is copied, stripped or removed a
    second time. *)
Theorem create_dialog_twice
  (settings : Settings.t) (params : Params.t) (p p1 : page) (dlg1 : Dom.path) :
  create_dialog settings params p = Normal (Some dlg1) p1 ->
  (Params.dialog_type params <> "inline" ->
   exists dlg2 p2 inner1 inner2,
     create_dialog settings params p1 = Normal (Some dlg2) p2
     /\ dlg2 <> dlg1
     /\ Dom.node_at (document p2) dlg1 = Some (dialog_element, inner1)
     /\ Dom.node_at (document p2) dlg2 = Some (dialog_element, inner2))
  /\ (Params.dialog_type params = "inline" ->
      Dom.count (Dom.has_id (Params.dialog_id params)) (document p) = 1 ->
      Dom.count (Dom.has_id (Params.dialog_id params))
        (parse_html (materialized_content settings params (document p))) = 0 ->
      create_dialog settings params p1
      = Normal None
          (logged ("Unable to find element with ID of '#"
                   ++ Params.dialog_id params ++ "'") p1)).
Proof.
  intros H. split.
  - intros Ht.
    destruct (create_dialog_media _ _ _ _ _ Ht H)
      as (b & eb & kb & Hb & Hn & [= ->] & ->).
    set (content := dialog_content settings params "").
    set (d1 := Dom.append_child (document p) b (build_dialog settings content)).
    assert (Hb1 : Dom.body d1 = Some b) by now apply body_append_child.
    assert (Hn1 : Dom.node_at d1 b
                  = Some (eb, Dom.append_nodes kb (build_dialog settings content)))
      by now apply node_at_append_child.
    eexists _, _, _, _. split; [|split; [|split]].
    + unfold create_dialog. apply String.eqb_neq in Ht. rewrite Ht.
      fold content.
      exact (attach_with_body _ (with_document d1 p) b _ _ Hb1 Hn1).
    + intros E. apply append_one_inj in E.
      rewrite node_count_append_nodes in E. simpl in E. lia.
    + simpl document.
      rewrite (node_at_below _ b [Dom.node_count kb] eb _
                 (node_at_append_child _ _ _ _ _ Hn1)) by discriminate.
      apply node_at_append_nodes. apply node_at_appended.
    + simpl document. unfold build_dialog at 1.
      exact (node_at_attached _ _ _ _ _ _ Hn1).
  - intros Ht Hone Hcontent.
    destruct (create_dialog_inline _ _ _ _ _ Ht H)
      as [(_ & E & _) | (frag & b & eb & kb & G & Hmid)]; [discriminate|].
    destruct (get_element_by_id_some _ _ _ G) as (e & kids & Hat & Hid).
    cbv zeta in Hmid. destruct Hmid as (Hb & Hn & _ & ->).
    unfold materialized_content in Hcontent. rewrite Ht, G in Hcontent.
    simpl in Hcontent.
    assert (Hpe : Dom.has_id (Params.dialog_id params) e = true)
      by now apply has_id_true.
    assert (Hgone :
      Dom.get_element_by_id (Params.dialog_id params)
        (Dom.append_child
           (if Settings.remove_inline_content settings
            then Dom.remove_at (document p) frag
            else Dom.update_at Dom.remove_id (document p) frag)
           b
           (build_dialog settings
              (dialog_content settings params (inline_html (document p) frag))))
      = None).
    { unfold Dom.get_element_by_id.
      destruct (Params.dialog_id params =? ""); [reflexivity|].
      apply count_zero.
      rewrite (count_append_child _ _ _ _ _ _ Hn), count_build_dialog, Hcontent.
      simpl.
      destruct (Settings.remove_inline_content settings).
      - pose proof (count_remove_at (Dom.has_id (Params.dialog_id params))
                      _ _ _ _ Hat) as C.
        rewrite Hpe in C. lia.
      - pose proof (count_update_at (Dom.has_id (Params.dialog_id params))
                      Dom.remove_id _ _ _ _ Hat) as C.
        rewrite Hpe in C. simpl in C. lia. }
    unfold create_dialog. rewrite Ht. simpl. run. simpl in Hgone.
    now rewrite Hgone.
Qed.

(** Attaching a dialog whose content carries no id leaves the ids of the
    document as they were. *)
Lemma ids_after_attach (settings : Settings.t) (content : string)
  (d : Dom.nodes) (b : Dom.path) (eb : Dom.element) (kb : Dom.nodes) :
  Dom.node_at d b = Some (eb, kb) ->
  (forall key, Dom.count (Dom.has_id key) (parse_html content) = 0) ->
  forall key,
    id_in_document key (Dom.append_child d b (build_dialog settings content))
    <-> id_in_document key d.
Proof.
  intros Hn Hcontent key. rewrite !count_positive.
  rewrite (count_append_child _ _ _ _ _ _ Hn), count_build_dialog, Hcontent.
  simpl. lia.
Qed.

(** C10 (amended).  The dialog element [create_dialog] attaches has no
    id, nor has the inner element it holds.  When the markup parsed into
    the modal carries no id of its own (the label of the close button, the
    source, the alt text and the markup of the fragment are written into
    it as they come), a materialization registers no id: every id
    of the document after the call was one before it; and for a kind other
    than inline, the kinds whose id is generated, the ids are the same
    after as before, so that [generate_dialog_id] returns after the call
    what it returned before it.  The id [init] generated for such a
    trigger, which it writes after a hash sign into the href of the
    trigger, is the id of no element of the document once the dialog is
    attached, and the id the next trigger of that kind is given. *)
Theorem dialog_element_has_no_id (settings : Settings.t) :
  (forall params p p' dlg,
     create_dialog settings params p = Normal (Some dlg) p' ->
     (exists inner,
        Dom.node_at (document p') dlg = Some (dialog_element, inner))
     /\ Dom.id_attr dialog_element = None
     /\ Dom.id_attr (inner_element settings) = None
     /\ ((forall key,
            Dom.count (Dom.has_id key)
              (parse_html (materialized_content settings params (document p)))
            = 0) ->
         (forall key,
            id_in_document key (document p') ->
            id_in_document key (document p))
         /\ (Params.dialog_type params <> "inline" ->
             (forall key,
                id_in_document key (document p')
                <-> id_in_document key (document p))
             /\ (forall kind,
                   generate_dialog_id (document p') kind
                   = generate_dialog_id (document p) kind))))
  /\ (forall el kind src p el' dlg p',
        resolve el = Resolved kind src ->
        kind <> "inline" ->
        (forall key id,
           Dom.count (Dom.has_id key)
             (parse_html
                (dialog_content settings
                   (trigger_params settings el kind id src) "")) = 0) ->
        init_trigger settings el p = Normal (el', Some dlg) p' ->
        exists id,
          generate_dialog_id (document p) kind = Some id
          /\ generate_dialog_id (document p') kind = Some id
          /\ ~ id_in_document id (document p')
          /\ (Js.truthy_value (href el) <> None ->
              href el' = Some ("#" ++ id))).
Proof.
  split.
  - intros params p p' dlg H.
    destruct (String.eqb_spec (Params.dialog_type params) "inline") as [Ht|Ht].
    + destruct (create_dialog_inline _ _ _ _ _ Ht H)
        as [(_ & E & _) | (frag & b & eb & kb & G & Hmid)]; [discriminate|].
      destruct (get_element_by_id_some _ _ _ G) as (e & kids & Hat & Hid).
      cbv zeta in Hmid. destruct Hmid as (Hb & Hn & [= ->] & ->).
      split; [|split; [|split]]; try reflexivity.
      * eexists. simpl document. unfold build_dialog.
        exact (node_at_attached _ _ _ _ _ _ Hn).
      * unfold materialized_content. rewrite Ht, G. simpl. intros Hcontent.
        split; [|intros C; now contradiction C].
        intros key. rewrite !count_positive.
        rewrite (count_append_child _ _ _ _ _ _ Hn), count_build_dialog,
          Hcontent.
        simpl.
        destruct (Settings.remove_inline_content settings).
        -- pose proof (count_remove_at (Dom.has_id key) _ _ _ _ Hat). lia.
        -- pose proof (count_update_at (Dom.has_id key) Dom.remove_id
                         _ _ _ _ Hat) as C.
           simpl in C. lia.
    + destruct (create_dialog_media _ _ _ _ _ Ht H)
        as (b & eb & kb & Hb & Hn & [= ->] & ->).
      split; [|split; [|split]]; try reflexivity.
      * eexists. simpl document. unfold build_dialog.
        exact (node_at_attached _ _ _ _ _ _ Hn).
      * unfold materialized_content.
        rewrite (proj2 (String.eqb_neq _ _) Ht). intros Hcontent.
        simpl document.
        pose proof (ids_after_attach settings _ _ _ _ _ Hn Hcontent) as Hids.
        split; [intros key; apply Hids|]. intros _.
        split; [exact Hids|].
        intros kind. now apply generate_dialog_id_same_ids.
  - intros el kind src p el' dlg p' Hres Hk Hcontent H.
    unfold init_trigger in H. rewrite Hres in H.
    apply String.eqb_neq in Hk.
    unfold bind at 1 in H. rewrite Hk in H. simpl in H.
    unfold call_generate_dialog_id in H.
    destruct (generate_dialog_id_returns (document p) kind)
      as (n & Hgen & Hfree & _).
    rewrite Hgen in H. unfold bind in H.
    destruct (create_dialog settings _ p) as [r q|err q|] eqn:C;
      try discriminate.
    destruct r as [r|]; [|discriminate].
    unfold ret in H. injection H as <- <- <-.
    apply String.eqb_neq in Hk.
    destruct (create_dialog_media settings
                (trigger_params settings el kind (candidate_id kind n) src)
                _ _ _ Hk C)
      as (b & eb & kb & Hb & Hn & _ & ->).
    simpl document.
    pose proof (ids_after_attach settings _ _ _ _ _ Hn
                  (fun key => Hcontent key (candidate_id kind n))) as Hids.
    exists (candidate_id kind n). split; [exact Hgen|]. split; [|split].
    + rewrite <- Hgen. now apply generate_dialog_id_same_ids.
    + rewrite Hids.
      now apply get_element_by_id_none; [apply candidate_id_not_empty|].
    + intros Hh. destruct (Js.truthy_value (href el)); [reflexivity|congruence].
Qed.

(** ** The key-down listener *)

Lemma path_eqb_eq (a b : Dom.path) : Dom.path_eqb a b = true <-> a = b.
Proof.
  revert b. induction a as [|i a IH]; intros [|j b]; simpl;
    try (split; [discriminate | intros [=]]); try tauto.
  rewrite andb_true_iff, Nat.eqb_eq, IH.
  split; [now intros [-> ->] | now intros [= -> ->]].
Qed.

Lemma same_node_true (a b : Dom.path) :
  Dom.same_node (Some a) (Some b) = true <-> a = b.
Proof.
  apply path_eqb_eq.
Qed.

Lemma same_node_false (a : option Dom.path) (b : Dom.path) :
  a <> Some b -> Dom.same_node a (Some b) = false.
Proof.
  intros H. destruct a as [a|]; [|reflexivity]. simpl.
  destruct (Dom.path_eqb a b) eqn:E; [|reflexivity].
  apply path_eqb_eq in E. congruence.
Qed.

(** With an element in the document, [document.activeElement] is not
    [null]. *)
Lemma active_element_not_null (P : Dom.element -> bool) (p : page)
  (found : Dom.path) :
  Dom.find_first P (document p) = Some found ->
  exists a, active_element p = Some a.
Proof.
  intros H. unfold active_element.
  destruct (focused p) as [f|]; [now exists f|].
  destruct (Dom.body (document p)) as [b|]; [now exists b|].
  destruct (Dom.document_element (document p)) as [[[i e] k]|] eqn:D;
    [now exists [i]|].
  rewrite (no_document_element P _ D) in H. discriminate.
Qed.

(** C9.  While the open dialog has no focusable descendant, the listener
    completes normally on every key-down, whatever the key, the modifiers
    and the focused element are: it does not throw, does not cancel the
    default action, and leaves the page, its focus included, as it was. *)
Theorem keydown_without_focusables
  (e : keyboard_event) (p : page) (dialog : Dom.path) :
  Dom.find_first dialog_open (document p) = Some dialog ->
  dialog_focusables (document p) dialog = [] ->
  keydown e p = Normal false p.
Proof.
  intros Hd Hf. unfold keydown. run. rewrite Hd, Hf. simpl.
  destruct (active_element_not_null _ _ _ Hd) as (a & Ha).
  unfold wrap_focus.
  destruct (negb (shiftKey e) && (key e =? "Tab"));
    destruct (shiftKey e && (key e =? "Tab"));
    cbv beta; rewrite ?Ha; simpl; rewrite ?Ha; reflexivity.
Qed.


Lemma wrap_focus_at_end (p : page) (at_end to : Dom.path) :
  active_element p = Some at_end ->
  wrap_focus (Some at_end) (Some to) p
  = Normal true (if can_focus p to then with_focus to p else p).
Proof.
  intros Ha. unfold wrap_focus. rewrite Ha.
  rewrite (proj2 (same_node_true at_end at_end) eq_refl).
  unfold bind. now rewrite focus_completes.
Qed.

Lemma wrap_focus_elsewhere (p : page) (at_end : Dom.path)
  (to : option Dom.path) :
  active_element p <> Some at_end ->
  wrap_focus (Some at_end) to p = Normal false p.
Proof.
  intros Ha. unfold wrap_focus. now rewrite (same_node_false _ _ Ha).
Qed.

(** C5 (amended).  With no dialog open the listener lets every key-down
    through.  With a dialog open whose focusable descendants, found anew at
    each key-down, start with [first] and end with [last]: Tab without
    Shift, whatever the other modifiers, with the focus on [last] cancels
    the default action, and moves the focus to [first] when the browser can
    focus it and leaves it on [last] when it cannot; Tab with Shift with
    the focus on [first] cancels the default action, and moves the focus to
    [last] when the browser can focus it and leaves it on [first] when it
    cannot; a key other than Tab, Tab without Shift with the focus off
    [last], and Tab with Shift with the focus off [first] go through, the
    page unchanged. *)
Theorem keydown_focus_trap (e : keyboard_event) (p : page) :
  (Dom.find_first dialog_open (document p) = None ->
   keydown e p = Normal false p)
  /\ (forall dialog first last,
        Dom.find_first dialog_open (document p) = Some dialog ->
        Dom.item (dialog_focusables (document p) dialog) 0 = Some first ->
        Dom.last_item (dialog_focusables (document p) dialog) = Some last ->
        (key e = "Tab" -> shiftKey e = false ->
         active_element p = Some last ->
         keydown e p
         = Normal true (if can_focus p first then with_focus first p else p))
        /\ (key e = "Tab" -> shiftKey e = true ->
            active_element p = Some first ->
            keydown e p
            = Normal true (if can_focus p last then with_focus last p else p))
        /\ (key e <> "Tab" -> keydown e p = Normal false p)
        /\ (shiftKey e = false -> active_element p <> Some last ->
            keydown e p = Normal false p)
        /\ (shiftKey e = true -> active_element p <> Some first ->
            keydown e p = Normal false p)).
Proof.
  split.
  - intros Hd. unfold keydown. run. now rewrite Hd.
  - intros dialog first last Hd Hfirst Hlast.
    unfold keydown, bind, read_document. rewrite Hd. cbv zeta.
    rewrite Hfirst, Hlast. unfold ret.
    split; [|split; [|split; [|split]]].
    + intros -> -> Ha. simpl.
      now rewrite (wrap_focus_at_end _ _ _ Ha).
    + intros -> -> Ha. simpl.
      now rewrite (wrap_focus_at_end _ _ _ Ha).
    + intros Hk. apply String.eqb_neq in Hk. rewrite Hk, !andb_false_r.
      reflexivity.
    + intros -> Ha. simpl. destruct (key e =? "Tab"); [|reflexivity].
      now rewrite (wrap_focus_elsewhere _ _ _ Ha).
    + intros -> Ha. simpl. destruct (key e =? "Tab"); [|reflexivity].
      now rewrite (wrap_focus_elsewhere _ _ _ Ha).
Qed.

(** ** The patterns *)

(** *** The two embeddings are one on the strings of the model *)














(** *** The patterns on code units decide the wording of the spec *)



















Lemma no_dot_with_dot (a b : string) :
  Regex.no_dot (a ++ String "." b) = false.
Proof.
  induction a as [|c a IH]; simpl; [reflexivity|].
  rewrite IH. apply andb_false_r.
Qed.

(** The group of the matcher of line 175 is what follows the last dot. *)
Lemma matcher_group1_after_last_dot (stem rest : string) :
  Regex.no_dot rest = true -> Js.truthy rest = true ->
  Regex.matcher_group1 (stem ++ "." ++ rest) = Some rest.
Proof.
  intros Hd Ht. induction stem as [|c stem IH]; simpl.
  - now rewrite Hd, Ht.
  - rewrite no_dot_with_dot, andb_false_r. exact IH.
Qed.

(** C8 (the code departs from the claim).  For clip.mp4 the media type
    written into the player is video/mp4.  But the type is video/ followed
    by all that follows the last dot of the source, a query string or
    fragment included: for clip.mp4?t=1, which [init] takes for a video,
    the player carries the type video/mp4?t=1, and for clip.webm#t=1.5 the
    type video/5. *)
Theorem video_format_keeps_query_and_fragment :
  format "clip.mp4" = "video/mp4"
  /\ infer_dialog_type "clip.mp4?t=1" = Some "video"
  /\ format "clip.mp4?t=1" = "video/mp4?t=1"
  /\ video_markup "clip.mp4?t=1"
     = "<video class=" ++ Js.quoted "eq-dialog-video" ++ " controls autoplay>"
       ++ "<source src=" ++ Js.quoted "clip.mp4?t=1"
       ++ " type=" ++ Js.quoted "video/mp4?t=1" ++ " />"
       ++ "Sorry, your browser doesn't support embedded videos, <a href="
       ++ Js.quoted "{{src}}"
       ++ ">download</a> and watch with your favorite video player!"
       ++ "</video>"
  /\ infer_dialog_type "clip.webm#t=1.5" = Some "video"
  /\ format "clip.webm#t=1.5" = "video/5"
  /\ (forall stem rest,
        Regex.no_dot rest = true -> Js.truthy rest = true ->
        format (stem ++ "." ++ rest) = "video/" ++ rest).
Proof.
  repeat split; try reflexivity.
  intros stem rest Hd Ht. unfold format.
  now rewrite (matcher_group1_after_last_dot stem rest Hd Ht).
Qed.

End Claims.

(* ================================================================== *)
(** * The claims on sample pages *)
(* ================================================================== *)


(** [generate_dialog_id] on a page where the first two image ids are
    taken, and on the sample page. *)
Example generate_dialog_id_skips_taken_ids :
  generate_dialog_id
    (document
       (page_with
          (Dom.element_node (Dom.mk_element "div" (Some "image-dialog-1") [] [])
             Dom.no_nodes
             (Dom.element_node
                (Dom.mk_element "p" (Some "image-dialog-0") [] [])
                Dom.no_nodes Dom.no_nodes))
          None))
    "image"
  = Some "image-dialog-2"
  /\ generate_dialog_id (document details_page) "image"
     = Some "image-dialog-0".
Proof.
  split; reflexivity.
Qed.

(** [infer_dialog_type] on sample sources.  A source that matches two
    patterns gets the first kind in the order; a base64 data URI has a
    semicolon before its comma and matches no pattern. *)
Example infer_dialog_type_on_samples :
  map infer_dialog_type
    ["photo.png"; "PHOTO.JPeG?w=200"; "data:image/svg+xml,<svg/>";
     "clip.mp4"; "clip.webm#t=10"; "clip.mp4?poster=still.png";
     "manual.PDF"; "#details";
     "page.html"; "data:image/png;base64,iVBORw0KGgo="; "photo.png.bak"]
  = [Some "image"; Some "image"; Some "image";
     Some "video"; Some "video"; Some "image";
     Some "iframe"; Some "inline";
     None; None; None].
Proof.
  reflexivity.
Qed.

(** C2, counterexample: on a page with a body, the image dialog with the
    id image-dialog-0 materialized twice gives two elements. *)
Lemma create_dialog_is_not_idempotent :
  ~ materialize_idempotent plain_browser eq_dialog_defaults image_params
      details_page.
Proof.
  intros H.
  destruct (H _ _ _ _ eq_refl eq_refl) as [E _].
  vm_compute in E. discriminate E.
Qed.

(** C5, counterexample: Ctrl+Tab with the focus on the last focusable
    element of the open dialog is cancelled and moves the focus. *)
Lemma ctrl_tab_is_trapped :
  ~ other_keys_pass_through plain_browser (tab_key false true) open_dialog_page.
Proof.
  intros H.
  assert (E : @keydown plain_browser (tab_key false true) open_dialog_page
              = Normal false open_dialog_page).
  { apply H; intros C; decompose [and] C; discriminate. }
  vm_compute in E. discriminate E.
Qed.

(** C10, counterexample: the alt text of the link closes the [alt]
    attribute and goes on with an id, the id [init] generates for the
    link.  The image of the modal then carries that id: the href written
    on the link names it, and the next image is given the id after it. *)
Lemma injected_id_is_registered :
  ~ generated_id_unregistered sample_browser eq_dialog_defaults sly_link
      details_page.
Proof.
  intros H.
  destruct (H "image" "photo.png" "image-dialog-0" _ _ _ eq_refl
              ltac:(discriminate) eq_refl eq_refl) as [_ E].
  vm_compute in E. discriminate E.
Qed.

Example sly_link_on_the_sample_page :
  exists el' dlg p',
    @init_trigger sample_browser eq_dialog_defaults sly_link details_page
    = Normal (el', Some dlg) p'
    /\ href el' = Some "#image-dialog-0"
    /\ Dom.get_element_by_id "image-dialog-0" (document p')
       = Some [0; 1; 1; 0; 1]
    /\ (exists kids,
          Dom.node_at (document p') [0; 1; 1; 0; 1]
          = Some (Dom.mk_element "img" (Some "image-dialog-0")
                    [("src", "photo.png"); ("alt", "")] [],
                  kids))
    /\ generate_dialog_id (document p') "image" = Some "image-dialog-1".
Proof.
  eexists _, _, _. split; [vm_compute; reflexivity|].
  repeat split. now eexists.
Qed.

(** C2, on the sample page: the image dialog twice, and the inline
    dialog of the fragment twice. *)
Lemma create_dialog_twice_witness :
  (exists dlg1 p1,
     @create_dialog plain_browser eq_dialog_defaults image_params details_page
     = Normal (Some dlg1) p1
     /\ exists dlg2 p2 inner1 inner2,
          @create_dialog plain_browser eq_dialog_defaults image_params p1
          = Normal (Some dlg2) p2
          /\ dlg2 <> dlg1
          /\ Dom.node_at (document p2) dlg1 = Some (dialog_element, inner1)
          /\ Dom.node_at (document p2) dlg2 = Some (dialog_element, inner2))
  /\ (exists dlg1 p1,
        @create_dialog plain_browser eq_dialog_defaults details_params
          details_page
        = Normal (Some dlg1) p1
        /\ @create_dialog plain_browser eq_dialog_defaults details_params p1
           = Normal None
               (logged "Unable to find element with ID of '#details'" p1)).
Proof.
  split.
  - eexists _, _. split; [lazy; reflexivity|].
    apply (proj1 (@create_dialog_twice plain_browser eq_dialog_defaults
                    image_params details_page _ _ eq_refl)).
    discriminate.
  - eexists _, _. split; [lazy; reflexivity|].
    apply (proj2 (@create_dialog_twice plain_browser eq_dialog_defaults
                    details_params details_page _ _ eq_refl)).
    + reflexivity.
    + reflexivity.
    + reflexivity.
Defined.

(** The patterns on sources that hold a line break after the extension,
    one of them with a code unit that no string of the model holds, and on
    the extension jpe. *)
Example infer_dialog_type_on_code_units :
  Units.infer_dialog_type
    (Units.of_string "photo.png?a" ++ 8232%N :: Units.of_string "b")
  = None
  /\ Units.infer_dialog_type
       (Units.of_string "photo.png?a" ++ 10%N :: Units.of_string "b")
     = None
  /\ Units.infer_dialog_type
       (Units.of_string "photo.png?a" ++ 8234%N :: Units.of_string "b")
     = Some "image"
  /\ infer_dialog_type "photo.jpe" = Some "image"
  /\ infer_dialog_type "manual.pdf#page=2" = Some "iframe".
Proof.
  repeat split.
Qed.


(** C5, on the sample pages: Tab on the link, the last focusable
    element, moves the focus to the close button, and Shift+Tab on the
    close button moves it to the link; Tab on the link of a dialog whose
    first focusable element is a text field the browser cannot focus is
    cancelled, the focus staying on the link. *)
Lemma keydown_focus_trap_witness :
  @keydown plain_browser (tab_key false false) open_dialog_page
  = Normal true (with_focus [0; 1; 0; 0; 0; 0] open_dialog_page)
  /\ @keydown plain_browser (tab_key true false)
       (with_focus [0; 1; 0; 0; 0; 0] open_dialog_page)
     = Normal true
         (with_focus [0; 1; 0; 0; 1]
            (with_focus [0; 1; 0; 0; 0; 0] open_dialog_page))
  /\ @keydown sample_browser (tab_key false false) form_dialog_page
     = Normal true form_dialog_page.
Proof.
  split; [|split].
  - apply (proj2 (@keydown_focus_trap plain_browser (tab_key false false)
                    open_dialog_page)
             [0; 1; 0] [0; 1; 0; 0; 0; 0] [0; 1; 0; 0; 1]);
      reflexivity.
  - apply (proj2 (@keydown_focus_trap plain_browser (tab_key true false)
                    (with_focus [0; 1; 0; 0; 0; 0] open_dialog_page))
             [0; 1; 0] [0; 1; 0; 0; 0; 0] [0; 1; 0; 0; 1]);
      reflexivity.
  - exact (proj1 (proj2 (@keydown_focus_trap sample_browser
                           (tab_key false false) form_dialog_page)
                    [0; 1; 0] [0; 1; 0; 0] [0; 1; 0; 1]
                    eq_refl eq_refl eq_refl)
             eq_refl eq_refl eq_refl).
Defined.

(** C6, on the sample page: no element has the id nowhere, neither for
    [create_dialog] nor for a trigger of [init] that is followed by
    another. *)
Lemma inline_fragment_not_found_witness :
  (exists p',
     @create_dialog plain_browser eq_dialog_defaults missing_params details_page
     = Normal None p'
     /\ console p'
        = List.app (console details_page)
            ["Unable to find element with ID of '#nowhere'"]
     /\ document p' = document details_page
     /\ focused p' = focused details_page)
  /\ (exists p',
        @init_trigger plain_browser eq_dialog_defaults
          (mk_trigger None None (Some "#nowhere") None None) details_page
        = Normal (mk_trigger None None (Some "#nowhere") None None, None) p'
        /\ document p' = document details_page
        /\ @init plain_browser eq_dialog_defaults
             [mk_trigger None None (Some "#nowhere") None None;
              mk_trigger None (Some "photo.png") None None None]
             details_page
           = (rs <- @init plain_browser eq_dialog_defaults
                      [mk_trigger None (Some "photo.png") None None None] ;;
              ret ((mk_trigger None None (Some "#nowhere") None None, None)
                     :: rs)) p').
Proof.
  split.
  - apply (proj1 (@inline_fragment_not_found plain_browser eq_dialog_defaults
                    details_page) missing_params);
      reflexivity.
  - apply (proj2 (@inline_fragment_not_found plain_browser eq_dialog_defaults
                    details_page)
             (mk_trigger None None (Some "#nowhere") None None)
             [mk_trigger None (Some "photo.png") None None None]
             "#nowhere");
      reflexivity.
Defined.

(** C7, on the sample page with the default settings: the fragment is
    stripped of its id and stays. *)
Lemma inline_fragment_removed_or_stripped_witness :
  exists frag e kids mid,
    Dom.get_element_by_id "details" (document details_page) = Some frag
    /\ Dom.node_at (document details_page) frag = Some (e, kids)
    /\ Dom.id_attr e = Some "details"
    /\ mid <> document details_page
    /\ mid = Dom.update_at Dom.remove_id (document details_page) frag
    /\ Dom.node_at mid frag = Some (Dom.remove_id e, kids)
    /\ length (Dom.elements mid) = length (Dom.elements (document details_page)).
Proof.
  destruct (@inline_fragment_removed_or_stripped plain_browser
              eq_dialog_defaults details_params details_page _ [0; 1; 1]
              eq_refl eq_refl)
    as (frag & e & kids & mid & body & H1 & H2 & H3 & H4 & H5 & H6 & H7 & H8).
  exists frag, e, kids, mid. repeat split; assumption.
Defined.

(** C9, on the sample page: Tab and Shift+Tab in a dialog with nothing
    to focus. *)
Lemma keydown_without_focusables_witness :
  @keydown plain_browser (tab_key false false) bare_dialog_page
  = Normal false bare_dialog_page
  /\ @keydown plain_browser (tab_key true false) bare_dialog_page
     = Normal false bare_dialog_page.
Proof.
  split;
    apply (@keydown_without_focusables plain_browser _ bare_dialog_page
             [0; 1; 0]);
    reflexivity.
Defined.

(** C10, on the sample page: a trigger whose href is photo.png. *)
Lemma dialog_element_has_no_id_witness :
  exists el' dlg p',
    @init_trigger plain_browser eq_dialog_defaults
      (mk_trigger None (Some "photo.png") None None None) details_page
    = Normal (el', Some dlg) p'
    /\ exists id,
         generate_dialog_id (document details_page) "image" = Some id
         /\ generate_dialog_id (document p') "image" = Some id
         /\ ~ id_in_document id (document p')
         /\ (Js.truthy_value (Some "photo.png") <> None ->
             href el' = Some ("#" ++ id)).
Proof.
  eexists _, _, _. split; [lazy; reflexivity|].
  eapply (proj2 (@dialog_element_has_no_id plain_browser eq_dialog_defaults)
            (mk_trigger None (Some "photo.png") None None None)
            "image" "photo.png" details_page).
  - reflexivity.
  - discriminate.
  - intros key id. reflexivity.
  - reflexivity.
Defined.

(* ================================================================== *)
(** * Further properties of the class *)
(* ================================================================== *)

Section Further.

Context {browser : Browser}.

(** ** The constructor *)

Lemma set_property_same (name value : string) (obj : list (string * string)) :
  Dom.lookup_attribute name obj = Some value ->
  set_property name value obj = obj.
Proof.
  induction obj as [|[k v] rest IH]; simpl; [discriminate|].
  destruct (k =? name); [now intros [= ->]|].
  intros H. now rewrite IH.
Qed.

Lemma copy_style_names_same (style : list (string * string)) :
  copy_style_names style = style.
Proof.
  unfold copy_style_names. generalize (map fst style) as names.
  intros names. induction names as [|name names IH]; simpl; [reflexivity|].
  destruct (Dom.lookup_attribute name style) as [value|] eqn:L;
    [rewrite (set_property_same _ _ _ L)|]; exact IH.
Qed.

(** X1.  The style of an instance is the style option as it was given,
    when there is one: the loop of lines 33-35 assigns each property of
    the object to itself.  The default width is therefore kept only when no
    style option is given; an option without a width leaves the instance
    without one.  The other settings are the option given, else the
    default. *)
Theorem constructor_takes_the_style_option_whole (options : Options.t) :
  (forall style,
     Options.style options = Some style ->
     Settings.style (constructor options) = style
     /\ (Dom.lookup_attribute "width" style = None ->
         Dom.lookup_attribute "width" (Settings.style (constructor options))
         = None))
  /\ (Options.style options = None ->
      Settings.style (constructor options) = [("width", "600px")])
  /\ (forall flag,
        Options.remove_inline_content options = Some flag ->
        Settings.remove_inline_content (constructor options) = flag)
  /\ (Options.remove_inline_content options = None ->
      Settings.remove_inline_content (constructor options) = false)
  /\ (forall flag,
        Options.show_close_button options = Some flag ->
        Settings.show_close_button (constructor options) = flag)
  /\ (Options.show_close_button options = None ->
      Settings.show_close_button (constructor options) = true)
  /\ (forall text,
        Options.close_button_text options = Some text ->
        Settings.close_button_text (constructor options) = text)
  /\ (Options.close_button_text options = None ->
      Settings.close_button_text (constructor options) = "Close dialog").
Proof.
  unfold constructor. simpl.
  split; [|repeat split; try (intros ? H); try (intros H); now rewrite H].
  intros style H. rewrite H, copy_style_names_same. now split.
Qed.

(** ** The key-down listener, on every page *)

Lemma last_item_in (l : list Dom.path) (f : Dom.path) :
  exists t, Dom.last_item (f :: l) = Some t /\ In t (f :: l).
Proof.
  unfold Dom.last_item.
  destruct (nth_error (f :: l) (length (f :: l) - 1)) as [t|] eqn:N.
  - exists t. split; [reflexivity|]. eapply nth_error_In; eauto.
  - apply nth_error_None in N. simpl in N. lia.
Qed.

(** One of the inner [if]s of the listener with a target that is not
    [null]: it completes, and changes the focus at most, to the target. *)
Lemma wrap_focus_completes (at_end : option Dom.path) (to : Dom.path)
  (p : page) :
  exists prevented p',
    wrap_focus at_end (Some to) p = Normal prevented p'
    /\ document p' = document p
    /\ console p' = console p
    /\ (p' = p \/ (prevented = true /\ p' = with_focus to p))
    /\ exists again, wrap_focus at_end (Some to) p' = Normal again p'.
Proof.
  unfold wrap_focus at 1.
  destruct (Dom.same_node (active_element p) at_end) eqn:S.
  - unfold bind, focus, ret.
    destruct (Dom.node_at (document p) to) as [[e k]|] eqn:N.
    + destruct (focusable_area e) eqn:F.
      * exists true, (with_focus to p). repeat split; auto.
        unfold wrap_focus.
        change (active_element (with_focus to p)) with (Some to).
        destruct (Dom.same_node (Some to) at_end); [|now exists false].
        unfold bind, focus, ret.
        change (document (with_focus to p)) with (document p).
        rewrite N, F. now exists true.
      * exists true, p. repeat split; auto.
        unfold wrap_focus. rewrite S. unfold bind, focus, ret.
        rewrite N, F. now exists true.
    + exists true, p. repeat split; auto.
      unfold wrap_focus. rewrite S. unfold bind, focus, ret.
      rewrite N. now exists true.
  - exists false, p. repeat split; auto.
    unfold wrap_focus. rewrite S. now exists false.
Qed.

(** The listener does nothing, or it is one of its two inner [if]s, on a
    target that is one of the focusable descendants of the open dialog;
    and it is the same one on every page with the same document. *)
Lemma keydown_cases (e : keyboard_event) (p : page) :
  keydown e p = Normal false p
  \/ exists dialog at_end to,
       Dom.find_first dialog_open (document p) = Some dialog
       /\ In to (dialog_focusables (document p) dialog)
       /\ key e = "Tab"
       /\ forall q,
            document q = document p ->
            keydown e q = wrap_focus (Some at_end) (Some to) q.
Proof.
  destruct (Dom.find_first dialog_open (document p)) as [dialog|] eqn:Hd.
  2:{ left. unfold keydown, bind, read_document. now rewrite Hd. }
  destruct (dialog_focusables (document p) dialog) as [|f r] eqn:Fs.
  { left. unfold keydown, bind, read_document. rewrite Hd, Fs. simpl.
    destruct (active_element_not_null _ _ _ Hd) as (a & Ha).
    unfold wrap_focus.
    destruct (negb (shiftKey e) && (key e =? "Tab"));
      destruct (shiftKey e && (key e =? "Tab"));
      cbv beta; rewrite ?Ha; simpl; rewrite ?Ha; reflexivity. }
  destruct (last_item_in r f) as (l & Hl & Hin).
  destruct (String.eqb_spec (key e) "Tab") as [Hk|Hk].
  - right. destruct (shiftKey e) eqn:Hs.
    + exists dialog, f, l. repeat split; auto; [now rewrite Fs|].
      intros q Hq. unfold keydown, bind, read_document.
      rewrite Hq, Hd. cbv zeta. rewrite Fs, Hl, Hs, Hk. simpl.
      destruct (wrap_focus (Some f) (Some l) q); reflexivity.
    + exists dialog, l, f. repeat split; auto; [rewrite Fs; now left|].
      intros q Hq. unfold keydown, bind, read_document.
      rewrite Hq, Hd. cbv zeta. rewrite Fs, Hl, Hs, Hk. simpl.
      destruct (wrap_focus (Some l) (Some f) q) as [b q'| |];
        [now rewrite orb_false_r | reflexivity | reflexivity].
  - left. unfold keydown, bind, read_document. rewrite Hd. cbv zeta.
    apply String.eqb_neq in Hk. now rewrite Hk, !andb_false_r.
Qed.

(** X2.  The listener never throws, on any page and for any key-down: it
    completes, and leaves the document and the console as they were.  The
    focus stays where it was or goes to one of the focusable descendants of
    the first open dialog, and the default action is cancelled for the Tab
    key only. *)
Theorem keydown_completes_and_moves_focus_only
  (e : keyboard_event) (p : page) :
  exists prevented p',
    keydown e p = Normal prevented p'
    /\ document p' = document p
    /\ console p' = console p
    /\ (focused p' = focused p
        \/ exists dialog target,
             Dom.find_first dialog_open (document p) = Some dialog
             /\ In target (dialog_focusables (document p) dialog)
             /\ focused p' = Some target)
    /\ (prevented = true -> key e = "Tab").
Proof.
  destruct (keydown_cases e p)
    as [H | (dialog & at_end & to & Hd & Hin & Hk & H)].
  - exists false, p. repeat split; auto. discriminate.
  - rewrite (H p eq_refl).
    destruct (wrap_focus_completes (Some at_end) to p)
      as (b & p' & Hw & Hdoc & Hcon & Hp & _).
    exists b, p'. repeat split; auto.
    destruct Hp as [-> | [_ ->]]; [now left|].
    right. now exists dialog, to.
Qed.

(** X3.  Every instance of the class installs the listener (line 40), so
    with several instances it runs several times on one key-down.  A run
    that follows another on the same event leaves the page as it found it:
    the focus is wrapped once. *)
Theorem keydown_twice_moves_focus_once
  (e : keyboard_event) (p p' : page) (prevented : bool) :
  keydown e p = Normal prevented p' ->
  exists again, keydown e p' = Normal again p'.
Proof.
  destruct (keydown_cases e p)
    as [H | (dialog & at_end & to & Hd & Hin & Hk & H)].
  - rewrite H. intros [= <- <-]. now exists false.
  - rewrite (H p eq_refl).
    destruct (wrap_focus_completes (Some at_end) to p)
      as (b & q & Hw & Hdoc & _ & _ & again & Hagain).
    rewrite Hw. intros [= <- <-].
    exists again. now rewrite (H q Hdoc).
Qed.

(** ** [init] on a page with a body *)

(** Changing an element in a way its siblings cannot tell (as [P] sees
    it) leaves the first child that satisfies [P] at its index. *)
Lemma first_child_update_at (P : Dom.element -> bool)
  (f : Dom.element -> Dom.element) (d : Dom.nodes) (p : Dom.path) :
  (forall e, P (f e) = P e) ->
  (Dom.first_child P d = None
   /\ Dom.first_child P (Dom.update_at f d p) = None)
  \/ exists i e k e' k',
       Dom.first_child P d = Some (i, e, k)
       /\ Dom.first_child P (Dom.update_at f d p) = Some (i, e', k')
       /\ (e' = e \/ e' = f e)
       /\ (k' = k \/ exists below, k' = Dom.update_at f k below).
Proof.
  intros HP. revert p.
  induction d as [|s rest IHr|x k IHk rest IHr]; intros p.
  - left. now destruct p.
  - destruct p as [|[|i] p].
    + destruct (Dom.first_child P (Dom.text_node s rest))
        as [[[n e] c]|] eqn:F; [right|left; auto].
      exists n, e, c, e, c. auto.
    + destruct (Dom.first_child P (Dom.text_node s rest))
        as [[[n e] c]|] eqn:F; [right|left; auto].
      exists n, e, c, e, c. auto.
    + simpl.
      destruct (IHr (i :: p)) as [[H1 H2] | (n & e & c & e' & c' & H1 & H2 & H)].
      * left. now rewrite H1, H2.
      * right. exists (S n), e, c, e', c'. now rewrite H1, H2.
  - assert (Hsame :
      (Dom.first_child P (Dom.element_node x k rest) = None
       /\ Dom.first_child P (Dom.element_node x k rest) = None)
      \/ exists i e c e' c',
           Dom.first_child P (Dom.element_node x k rest) = Some (i, e, c)
           /\ Dom.first_child P (Dom.element_node x k rest) = Some (i, e', c')
           /\ (e' = e \/ e' = f e)
           /\ (c' = c \/ exists below, c' = Dom.update_at f c below)).
    { destruct (Dom.first_child P (Dom.element_node x k rest))
        as [[[n e] c]|]; [right|left; auto].
      exists n, e, c, e, c. auto. }
    destruct p as [|[|i] [|j q]]; try exact Hsame; clear Hsame; simpl.
    + rewrite HP. destruct (P x).
      * right. exists 0, x, k, (f x), k. auto.
      * destruct (Dom.first_child P rest) as [[[n e] c]|]; [right|left; auto].
        exists (S n), e, c, e, c. auto.
    + destruct (P x).
      * right. exists 0, x, k, x, (Dom.update_at f k (j :: q)).
        repeat split; auto. right. now exists (j :: q).
      * destruct (Dom.first_child P rest) as [[[n e] c]|]; [right|left; auto].
        exists (S n), e, c, e, c. auto.
    + destruct (P x).
      * right. exists 0, x, k, x, k. auto.
      * destruct (IHr [i]) as [[H1 H2] | (n & e & c & e' & c' & H1 & H2 & H)].
        -- left. now rewrite H1, H2.
        -- right. exists (S n), e, c, e', c'. now rewrite H1, H2.
    + destruct (P x).
      * right. exists 0, x, k, x, k. auto.
      * destruct (IHr (i :: j :: q))
          as [[H1 H2] | (n & e & c & e' & c' & H1 & H2 & H)].
        -- left. now rewrite H1, H2.
        -- right. exists (S n), e, c, e', c'. now rewrite H1, H2.
Qed.

(** A change that keeps the tag of the element leaves the body where it
    is. *)
Lemma body_update_at (f : Dom.element -> Dom.element) (d : Dom.nodes)
  (p : Dom.path) :
  (forall e, Dom.tag_name (f e) = Dom.tag_name e) ->
  Dom.body (Dom.update_at f d p) = Dom.body d.
Proof.
  intros Hf.
  assert (Htag : forall t e, Dom.has_tag t (f e) = Dom.has_tag t e)
    by (intros t e; unfold Dom.has_tag; now rewrite Hf).
  unfold Dom.body, Dom.document_element.
  destruct (first_child_update_at (fun _ => true) f d p (fun _ => eq_refl))
    as [[H1 H2] | (i & e & k & e' & k' & H1 & H2 & He & Hk)];
    rewrite H1, H2; [reflexivity|].
  assert (Hhtml : Dom.has_tag "html" e' = Dom.has_tag "html" e)
    by (destruct He as [->| ->]; [reflexivity | apply Htag]).
  rewrite Hhtml. destruct (Dom.has_tag "html" e); [|reflexivity].
  destruct Hk as [->|(below & ->)]; [reflexivity|].
  destruct (first_child_update_at
              (fun c => Dom.has_tag "body" c || Dom.has_tag "frameset" c)
              f k below)
    as [[K1 K2] | (j & eb & kb & eb' & kb' & K1 & K2 & _)].
  - intros c. now rewrite !Htag.
  - now rewrite K1, K2.
  - now rewrite K1, K2.
Qed.

(** With the fragment kept (the default) and a body, [create_dialog]
    completes: it finds no inline fragment and reports it, or attaches the
    modal, the console and the focus untouched and the body in place. *)
Lemma create_dialog_completes (settings : Settings.t) (params : Params.t)
  (p : page) (b : Dom.path) :
  Settings.remove_inline_content settings = false ->
  Dom.body (document p) = Some b ->
  (Params.dialog_type params = "inline"
   /\ Dom.get_element_by_id (Params.dialog_id params) (document p) = None
   /\ create_dialog settings params p
      = Normal None
          (logged ("Unable to find element with ID of '#"
                   ++ Params.dialog_id params ++ "'") p))
  \/ (exists dlg p',
        create_dialog settings params p = Normal (Some dlg) p'
        /\ console p' = console p
        /\ focused p' = focused p
        /\ Dom.body (document p') = Some b
        /\ ~ (Params.dialog_type params = "inline"
              /\ Dom.get_element_by_id (Params.dialog_id params) (document p)
                 = None)).
Proof.
  intros Hkeep Hb. unfold create_dialog.
  destruct (String.eqb_spec (Params.dialog_type params) "inline") as [Ht|Ht].
  - unfold bind at 1. unfold read_document.
    destruct (Dom.get_element_by_id (Params.dialog_id params) (document p))
      as [frag|] eqn:G.
    + right. unfold bind, consume_fragment, read_document, bind.
      rewrite Hkeep. unfold write_document. rewrite G. cbv beta.
      set (mid := Dom.update_at Dom.remove_id (document p) frag).
      assert (Hmid : Dom.body mid = Some b)
        by (unfold mid; now rewrite body_update_at).
      destruct (body_node_at _ _ Hmid) as (eb & kb & Hn).
      rewrite (attach_with_body _ (mk_page mid (console p) (focused p))
                 b eb kb Hmid Hn).
      eexists _, _. split; [reflexivity|]. repeat split.
      * simpl. now apply body_append_child.
      * intros [_ C]. discriminate.
    + left. repeat split; auto.
  - right. destruct (body_node_at _ _ Hb) as (eb & kb & Hn).
    rewrite (attach_with_body _ p b eb kb Hb Hn).
    eexists _, _. split; [reflexivity|]. repeat split.
    + simpl. now apply body_append_child.
    + intros [C _]. contradiction.
Qed.

(** What [init] does with one trigger, the fragments being kept and the
    document having a body. *)
Lemma init_trigger_cases (settings : Settings.t) (el : trigger) (p : page)
  (b : Dom.path) :
  Settings.remove_inline_content settings = false ->
  Dom.body (document p) = Some b ->
  (skipped_on (document p) el
   /\ exists msg,
        init_trigger settings el p
        = Normal (el, None)
            (mk_page (document p) (console p ++ [msg]) (focused p)))
  \/ (~ skipped_on (document p) el
      /\ exists el' dlg p',
           init_trigger settings el p = Normal (el', Some dlg) p'
           /\ console p' = console p
           /\ focused p' = focused p
           /\ Dom.body (document p') = Some b).
Proof.
  intros Hkeep Hb. unfold init_trigger, skipped_on.
  destruct (resolve el) as [|src|kind src] eqn:R.
  - left. split; [now left|]. eexists. reflexivity.
  - left. split; [right; left; now exists src|]. eexists. reflexivity.
  - assert (Hid : exists id,
      (if (kind =? "inline") && Js.truthy src
       then ret (Js.substring 1 src)
       else call_generate_dialog_id kind) p = Normal id p
      /\ (kind = "inline" -> id = Js.substring 1 src)).
    { pose proof (trigger_source_truthy _ _ (resolved_source _ _ _ R)) as T.
      rewrite T, andb_true_r.
      destruct (String.eqb_spec kind "inline") as [->|Hk].
      - now exists (Js.substring 1 src).
      - destruct (call_generate_dialog_id_returns kind p) as (id & ->).
        exists id. split; [reflexivity | contradiction]. }
    destruct Hid as (id & E & Hinline). unfold bind. rewrite !E.
    destruct (create_dialog_completes settings
                (trigger_params settings el kind id src) p b Hkeep Hb)
      as [(Ht & G & C) | (dlg & p' & C & Hc & Hf & Hb' & Hnot)];
      rewrite !C.
    + left. simpl in Ht, G. subst kind. rewrite (Hinline eq_refl) in G.
      split; [right; right; now exists src|]. eexists. reflexivity.
    + right. split.
      * intros [D | [(s & D) | (s & D & G)]]; try discriminate.
        injection D as -> ->. apply Hnot. simpl.
        now rewrite (Hinline eq_refl).
      * eexists _, dlg, p'. split; [reflexivity|]. auto.
Qed.

(** X4.  With the fragments kept (the default) and a body in the
    document, [init] never throws on a trigger, and the trigger gets no
    modal exactly when it has no source, its kind cannot be told, or it is
    inline and names no element.  A trigger that gets no modal is left as it
    was, with the document, and costs one message on the console; one that
    gets a modal costs none. *)
Theorem init_trigger_reports_exactly_when_it_skips
  (settings : Settings.t) (el : trigger) (p : page) (b : Dom.path) :
  Settings.remove_inline_content settings = false ->
  Dom.body (document p) = Some b ->
  exists el' r p',
    init_trigger settings el p = Normal (el', r) p'
    /\ focused p' = focused p
    /\ Dom.body (document p') = Some b
    /\ (r = None <-> skipped_on (document p) el)
    /\ (r = None ->
        el' = el /\ document p' = document p
        /\ exists msg, console p' = List.app (console p) [msg])
    /\ (r <> None -> console p' = console p).
Proof.
  intros Hkeep Hb.
  destruct (init_trigger_cases settings el p b Hkeep Hb)
    as [(Hs & msg & E) | (Hs & el' & dlg & p' & E & Hc & Hf & Hb')].
  - eexists _, _, _. split; [exact E|]. repeat split; auto.
    + now exists msg.
    + intros C. now contradiction C.
  - exists el', (Some dlg), p'. split; [exact E|]. repeat split; auto;
      try discriminate; intros C; now contradiction C.
Qed.

(** X5.  With the fragments kept (the default) and a body in the
    document, [init] completes on every list of triggers, without
    throwing and with every look for a free id returning: each trigger
    has its result, the body is where it was, the focus is untouched, and
    the console has gained one message for each trigger that got no
    modal. *)
Theorem init_completes_on_a_page_with_a_body
  (settings : Settings.t) (els : list trigger) (p : page) (b : Dom.path) :
  Settings.remove_inline_content settings = false ->
  Dom.body (document p) = Some b ->
  exists results p',
    init settings els p = Normal results p'
    /\ length results = length els
    /\ Dom.body (document p') = Some b
    /\ focused p' = focused p
    /\ exists msgs,
         console p' = List.app (console p) msgs
         /\ length msgs = length (skipped results).
Proof.
  intros Hkeep. revert p.
  induction els as [|el rest IH]; intros p Hb; simpl.
  - exists [], p. repeat split; auto. exists []. now rewrite app_nil_r.
  - unfold bind at 1.
    destruct (init_trigger_cases settings el p b Hkeep Hb)
      as [(_ & msg & ->) | (_ & el' & dlg & q & -> & Hc & Hf & Hb')].
    + destruct (IH (mk_page (document p) (console p ++ [msg])%list (focused p)) Hb)
        as (rs & p' & E & Hlen & Hbody & Hfoc & msgs & Hcon & Hm).
      unfold bind, ret. rewrite E.
      eexists _, _. split; [reflexivity|]. simpl. repeat split; auto.
      exists (msg :: msgs). simpl in Hcon. rewrite Hcon, <- app_assoc.
      simpl. auto.
    + destruct (IH q Hb')
        as (rs & p' & E & Hlen & Hbody & Hfoc & msgs & Hcon & Hm).
      unfold bind, ret. rewrite E.
      eexists _, _. split; [reflexivity|]. simpl. repeat split; auto.
      * congruence.
      * exists msgs. now rewrite Hcon, Hc.
Qed.

(** ** [create_dialog] and [open], end to end *)

Lemma append_empty_r (a : string) : a ++ "" = a.
Proof.
  induction a as [|c a IH]; simpl; [reflexivity | now rewrite IH].
Qed.

Lemma append_associative (a b c : string) : (a ++ b) ++ c = a ++ b ++ c.
Proof.
  induction a as [|x a IH]; simpl; [reflexivity | now rewrite IH].
Qed.

(** X6.  On an HTML document that has no body (it was removed, or the
    document element is no [html] element) [create_dialog] throws at line
    193, where [document.body] is [null].  For a kind other than inline
    the page is then as it was.  For inline content whose fragment is
    found and kept, the fragment has by then lost its id: the page is left
    with the fragment stripped and no modal. *)
Theorem create_dialog_throws_without_a_body
  (settings : Settings.t) (params : Params.t) (p : page) :
  Dom.body (document p) = None ->
  (Params.dialog_type params <> "inline" ->
   create_dialog settings params p
   = Throws "TypeError: document.body is null" p)
  /\ (forall frag e kids,
        Params.dialog_type params = "inline" ->
        Settings.remove_inline_content settings = false ->
        Dom.get_element_by_id (Params.dialog_id params) (document p)
        = Some frag ->
        Dom.node_at (document p) frag = Some (e, kids) ->
        exists p',
          create_dialog settings params p
          = Throws "TypeError: document.body is null" p'
          /\ document p' = Dom.update_at Dom.remove_id (document p) frag
          /\ Dom.node_at (document p') frag = Some (Dom.remove_id e, kids)
          /\ length (Dom.elements (document p'))
             = length (Dom.elements (document p))).
Proof.
  intros Hb. split.
  - intros Ht. unfold create_dialog.
    rewrite (proj2 (String.eqb_neq _ _) Ht).
    unfold attach, bind, read_document, throw. now rewrite Hb.
  - intros frag e kids Ht Hkeep G Hat. unfold create_dialog.
    rewrite Ht. simpl.
    unfold bind, read_document, consume_fragment, bind, read_document.
    rewrite G, Hkeep. unfold write_document, attach, bind, read_document.
    simpl. rewrite body_update_at by reflexivity. rewrite Hb.
    eexists. split; [reflexivity|]. simpl. repeat split.
    + now apply node_at_update_at.
    + rewrite <- !count_all.
      pose proof (count_update_at (fun _ => true) Dom.remove_id _ _ _ _ Hat).
      simpl in *. lia.
Qed.

(** What [open] leaves of the page, for a kind it neither rejects nor
    takes for inline: the modal attached and shown. *)
Lemma open_media_result
  (settings : Settings.t) (kind source img_alt : string) (p : page)
  (b : Dom.path) :
  kind <> "inline" -> kind <> "image" -> kind <> "iframe" ->
  (kind = "video" -> source <> "") ->
  Dom.body (document p) = Some b ->
  exists n eb kb below,
    let dlg := (b ++ [Dom.node_count kb])%list in
    let shown :=
      with_document
        (Dom.update_at (Dom.set_attribute "open" "")
           (Dom.append_child (document p) b
              (build_dialog settings
                 (dialog_content settings
                    (Params.mk kind (candidate_id kind n) source
                       img_alt None) "")))
           dlg) p in
    generate_dialog_id (document p) kind = Some (candidate_id kind n)
    /\ Dom.node_at (document p) b = Some (eb, kb)
    /\ focus_control (document shown) dlg = Some (dlg ++ below)%list
    /\ open settings kind source img_alt p
       = Normal tt
           (if can_focus shown (dlg ++ below)%list
            then with_focus (dlg ++ below)%list shown
            else shown).
Proof.
  intros Hin Him Hif Hv Hb.
  destruct (generate_dialog_id_returns (document p) kind) as (n & Hgen & _).
  destruct (body_node_at _ _ Hb) as (eb & kb & Hn).
  set (content :=
         dialog_content settings
           (Params.mk kind (candidate_id kind n) source img_alt None) "").
  pose proof (node_at_attached (document p) b eb dialog_element kb
                (Dom.element_node (inner_element settings)
                   (parse_html content) Dom.no_nodes) Hn) as Hat.
  fold (build_dialog settings content) in Hat.
  destruct (show_modal_on_closed_dialog (b ++ [Dom.node_count kb])%list
              dialog_element _
              (with_document
                 (Dom.append_child (document p) b
                    (build_dialog settings content)) p)
              Hat eq_refl) as (below & Hc & Hshow).
  exists n, eb, kb, below. cbv zeta.
  split; [exact Hgen|]. split; [exact Hn|]. split; [exact Hc|].
  assert (Hguard :
    (kind =? "image") || (kind =? "iframe")
    || ((kind =? "video") && negb (Js.truthy source)) = false).
  { rewrite (proj2 (String.eqb_neq _ _) Him), (proj2 (String.eqb_neq _ _) Hif).
    simpl. destruct (String.eqb_spec kind "video") as [E|E]; [|reflexivity].
    unfold Js.truthy. now rewrite (proj2 (String.eqb_neq _ _) (Hv E)). }
  unfold open. rewrite (proj2 (String.eqb_neq _ _) Hin), Hguard. simpl.
  unfold bind at 1. unfold call_generate_dialog_id. rewrite Hgen.
  unfold bind. unfold create_dialog. simpl.
  rewrite (proj2 (String.eqb_neq _ _) Hin).
  rewrite (attach_with_body _ p b eb kb Hb Hn).
  fold content. exact Hshow.
Qed.




(** ** The markup of the close button and of the player *)

Lemma free_of_append (c : ascii) (a b : string) :
  free_of c (a ++ b) = free_of c a && free_of c b.
Proof.
  induction a as [|x a IH]; simpl; [reflexivity|].
  now rewrite IH, andb_assoc.
Qed.

(** A replacement text without a dollar sign stands for itself. *)
Lemma get_substitution_plain (matched before after repl : string) :
  free_of "$" repl = true ->
  Js.get_substitution matched before after repl = repl.
Proof.
  induction repl as [|c repl IH]; simpl; [reflexivity|].
  intros H. apply andb_true_iff in H. destruct H as [Hc H].
  apply negb_true_iff in Hc. rewrite Hc. now rewrite IH.
Qed.

Lemma replace_plain (s pat repl before after : string) :
  Js.split_at_first pat s = Some (before, after) ->
  free_of "$" repl = true ->
  Js.replace s pat repl = before ++ repl ++ after.
Proof.
  intros S F. unfold Js.replace. rewrite S.
  now rewrite get_substitution_plain.
Qed.

(** A pattern is not found in a text that lacks its first character. *)
Lemma split_at_first_after (c : ascii) (pat a rest x y : string) :
  free_of c a = true ->
  Js.split_at_first (String c pat) rest = Some (x, y) ->
  Js.split_at_first (String c pat) (a ++ rest) = Some (a ++ x, y).
Proof.
  intros F S. induction a as [|k a IH].
  - exact S.
  - simpl in F. apply andb_true_iff in F. destruct F as [Hk F].
    apply negb_true_iff in Hk. rewrite Ascii.eqb_sym in Hk.
    change (String k a ++ rest) with (String k (a ++ rest)).
    cbn [Js.split_at_first Js.strip_prefix]. rewrite Hk.
    now rewrite (IH F).
Qed.

(** What the matcher of line 175 captures is an end of the source. *)
Lemma matcher_group1_free_of (c : ascii) (s r : string) :
  Regex.matcher_group1 s = Some r -> free_of c s = true -> free_of c r = true.
Proof.
  induction s as [|k s IH]; simpl; [discriminate|].
  intros H F. apply andb_true_iff in F. destruct F as [_ F].
  destruct (Ascii.eqb k "." && Js.truthy s && Regex.no_dot s).
  - now injection H as <-.
  - auto.
Qed.

Lemma format_free_of_dollar (src : string) :
  free_of "$" src = true -> free_of "$" (format src) = true.
Proof.
  intros F. unfold format.
  destruct (Regex.matcher_group1 src) as [r|] eqn:M; [|reflexivity].
  simpl. exact (matcher_group1_free_of _ _ _ M F).
Qed.

(** X9.  The player of a video whose source has no dollar sign and no
    opening brace carries the source in its [source] element and the
    media type of line 176 beside it, but its download link keeps the
    placeholder of the template for an address: line 178 replaces the
    first of the two placeholders only. *)
Theorem video_markup_leaves_the_link_placeholder (src : string) :
  free_of "$" src = true -> free_of "{" src = true ->
  video_markup src = player src (format src) "{{src}}"
  /\ template_video = player "{{src}}" "{{format}}" "{{src}}".
Proof.
  intros Fd Fb. split; [|reflexivity].
  unfold video_markup.
  rewrite (replace_plain template_video "{{src}}" src player_head
             (player_type ++ "{{format}}" ++ player_tail "{{src}}")
             eq_refl Fd).
  rewrite <- append_associative.
  rewrite (replace_plain _ "{{format}}" (format src)
             ((player_head ++ src) ++ player_type) (player_tail "{{src}}")).
  - unfold player. now rewrite !append_associative.
  - apply split_at_first_after; [|reflexivity].
    rewrite free_of_append, Fb. reflexivity.
  - now apply format_free_of_dollar.
Qed.

(** X10.  The accessible name of the close button.  For a trigger of
    [init] it is the label the trigger carries, else the configured one,
    written as it stands when it has no dollar sign; a doubled dollar sign
    at its head is written as one.  [open] passes no label, and the name
    is then the text undefined, whatever is configured. *)
Theorem close_button_label (settings : Settings.t) :
  Settings.show_close_button settings = true ->
  (forall el kind id src label,
     match Js.truthy_value (data_close_btn_txt el) with
     | Some own => own
     | None => Settings.close_button_text settings
     end = label ->
     free_of "$" label = true ->
     close_button_markup settings (trigger_params settings el kind id src)
     = close_button_with_label label)
  /\ (forall kind id src img_alt,
        close_button_markup settings (Params.mk kind id src img_alt None)
        = close_button_with_label "undefined")
  /\ (forall kind id src img_alt label,
        free_of "$" label = true ->
        close_button_markup settings
          (Params.mk kind id src img_alt (Some ("$$" ++ label)))
        = close_button_with_label ("$" ++ label))
  /\ template_close_button = close_button_with_label "{{close_btn_txt}}".
Proof.
  intros Hshow. unfold close_button_markup. rewrite Hshow.
  split; [|split; [|split]]; try reflexivity.
  - intros el kind id src label Hl F.
    assert (E : Js.or_undefined
                  (Params.close_button_text
                     (trigger_params settings el kind id src)) = label).
    { simpl. now destruct (Js.truthy_value (data_close_btn_txt el)). }
    rewrite E.
    exact (replace_plain template_close_button "{{close_btn_txt}}" label
             close_button_head close_button_tail eq_refl F).
  - intros kind id src img_alt label F.
    unfold Js.replace.
    assert (S : Js.split_at_first "{{close_btn_txt}}" template_close_button
                = Some (close_button_head, close_button_tail))
      by reflexivity.
    rewrite S. cbn [Params.close_button_text Js.or_undefined].
    change ("$$" ++ label) with (String "$" (String "$" label)).
    cbn [Js.get_substitution Ascii.eqb Bool.eqb].
    rewrite get_substitution_plain by exact F.
    reflexivity.
Qed.

(** ** The case of the letters of a source *)

Ltac by_all_characters c :=
  destruct c as [[] [] [] [] [] [] [] []]; reflexivity.

Lemma canonicalize_twice (c : ascii) :
  Regex.canonicalize (Regex.canonicalize c) = Regex.canonicalize c.
Proof. by_all_characters c. Qed.

Lemma canonicalize_dot (c : ascii) :
  Ascii.eqb (Regex.canonicalize c) "." = Ascii.eqb c ".".
Proof. by_all_characters c. Qed.

Lemma canonicalize_question_mark (c : ascii) :
  Ascii.eqb (Regex.canonicalize c) "?" = Ascii.eqb c "?".
Proof. by_all_characters c. Qed.

Lemma canonicalize_hash (c : ascii) :
  Ascii.eqb (Regex.canonicalize c) "#" = Ascii.eqb c "#".
Proof. by_all_characters c. Qed.

Lemma canonicalize_comma (c : ascii) :
  Ascii.eqb (Regex.canonicalize c) "," = Ascii.eqb c ",".
Proof. by_all_characters c. Qed.

Lemma canonicalize_line_terminator (c : ascii) :
  Regex.is_line_terminator (Regex.canonicalize c) = Regex.is_line_terminator c.
Proof. by_all_characters c. Qed.

Lemma canonicalize_data_uri_char (c : ascii) :
  Regex.data_uri_char (Regex.canonicalize c) = Regex.data_uri_char c.
Proof. by_all_characters c. Qed.

Lemma strip_prefix_i_upper_case (pat s : string) :
  Regex.strip_prefix_i pat (upper_case s)
  = option_map upper_case (Regex.strip_prefix_i pat s).
Proof.
  revert s. induction pat as [|a pat IH]; intros s; [reflexivity|].
  destruct s as [|c s]; [reflexivity|]. simpl.
  unfold Regex.char_eq_i. rewrite canonicalize_twice.
  destruct (Ascii.eqb (Regex.canonicalize a) (Regex.canonicalize c));
    [apply IH | reflexivity].
Qed.

Lemma dots_to_end_upper_case (s : string) :
  Regex.dots_to_end (upper_case s) = Regex.dots_to_end s.
Proof.
  induction s as [|c s IH]; simpl; [reflexivity|].
  now rewrite canonicalize_line_terminator, IH.
Qed.

Lemma query_or_fragment_upper_case (s : string) :
  Regex.query_or_fragment_to_end (upper_case s)
  = Regex.query_or_fragment_to_end s.
Proof.
  destruct s as [|c s]; simpl; [reflexivity|].
  now rewrite canonicalize_question_mark, canonicalize_hash,
    dots_to_end_upper_case.
Qed.

Lemma extension_here_upper_case (exts : list string) (s : string) :
  Regex.extension_here exts (upper_case s) = Regex.extension_here exts s.
Proof.
  unfold Regex.extension_here.
  induction exts as [|ext exts IH]; simpl; [reflexivity|].
  rewrite IH, strip_prefix_i_upper_case.
  destruct (Regex.strip_prefix_i ext s); simpl; [|reflexivity].
  now rewrite query_or_fragment_upper_case.
Qed.

Lemma dot_extension_upper_case (exts : list string) (s : string) :
  Regex.dot_extension exts (upper_case s) = Regex.dot_extension exts s.
Proof.
  induction s as [|c s IH]; simpl; [reflexivity|].
  now rewrite canonicalize_dot, extension_here_upper_case, IH.
Qed.

Lemma data_uri_type_upper_case (s : string) :
  Regex.data_uri_type_then_comma (upper_case s)
  = Regex.data_uri_type_then_comma s.
Proof.
  induction s as [|c s IH]; simpl; [reflexivity|].
  now rewrite canonicalize_comma, canonicalize_data_uri_char, IH.
Qed.

Lemma infer_dialog_type_upper_case (s : string) :
  infer_dialog_type (upper_case s) = infer_dialog_type s.
Proof.
  unfold infer_dialog_type, Regex.image_re, Regex.video_re, Regex.pdf_re,
    Regex.data_image_prefix.
  rewrite !dot_extension_upper_case, strip_prefix_i_upper_case.
  assert (Hhash : Js.first_char_is "#" (upper_case s) = Js.first_char_is "#" s)
    by (destruct s as [|c s]; [reflexivity | apply canonicalize_hash]).
  rewrite Hhash.
  destruct (Regex.strip_prefix_i "data:image/" s); simpl;
    [now rewrite data_uri_type_upper_case | reflexivity].
Qed.

(** X11.  Two sources that differ in the case of their letters only are
    given the same kind by lines 78-91, or both none: every pattern is
    matched ignoring case, and the hash sign of the last test is no
    letter. *)
Theorem infer_dialog_type_ignores_case (s t : string) :
  upper_case s = upper_case t ->
  infer_dialog_type s = infer_dialog_type t.
Proof.
  intros E.
  now rewrite <- (infer_dialog_type_upper_case s),
    <- (infer_dialog_type_upper_case t), E.
Qed.

(** ** What [init] writes on a trigger *)

(** X12.  Of the five attributes [init] reads on a trigger, it writes
    the href only (line 106), and that only when the trigger got a modal
    and had an href to start with: the four dataset entries are as they
    were.  What it writes is a hash sign followed by the id it computed:
    for a kind other than inline the first free id of the kind on the
    document it started from, for the kind inline the source without its
    first character.  For a trigger whose kind was inferred to be inline
    the href written is therefore the one it read.  (The other attributes
    of the trigger as an element, its id among them, are not part of this:
    see [trigger].) *)
Theorem init_trigger_writes_the_href_only
  (settings : Settings.t) (el el' : trigger) (p p' : page)
  (r : option Dom.path) :
  init_trigger settings el p = Normal (el', r) p' ->
  data_type el' = data_type el
  /\ data_target el' = data_target el
  /\ data_img_alt el' = data_img_alt el
  /\ data_close_btn_txt el' = data_close_btn_txt el
  /\ (r = None \/ Js.truthy_value (href el) = None -> href el' = href el)
  /\ (forall h kind src,
        r <> None ->
        Js.truthy_value (href el) = Some h ->
        resolve el = Resolved kind src ->
        src = h
        /\ exists id,
             href el' = Some ("#" ++ id)
             /\ (kind = "inline" -> id = Js.substring 1 h)
             /\ (kind <> "inline" ->
                 generate_dialog_id (document p) kind = Some id))
  /\ (Js.truthy_value (data_type el) = None ->
      forall src, resolve el = Resolved "inline" src -> href el' = href el).
Proof.
  unfold init_trigger.
  destruct (resolve el) as [|src|kind src] eqn:R.
  - intros [= <- <- <-]. repeat split; discriminate.
  - intros [= <- <- <-]. repeat split; discriminate.
  - pose proof (resolved_source _ _ _ R) as Hs.
    pose proof (trigger_source_truthy _ _ Hs) as T.
    rewrite T, andb_true_r. unfold bind.
    destruct ((if kind =? "inline"
               then ret (Js.substring 1 src)
               else call_generate_dialog_id kind) p)
      as [id q| |] eqn:I; try discriminate.
    assert (Hid : (kind = "inline" -> id = Js.substring 1 src)
                  /\ (kind <> "inline" ->
                      generate_dialog_id (document p) kind = Some id)).
    { destruct (String.eqb_spec kind "inline") as [->|Hk].
      - unfold ret in I. injection I as <- _. split; [auto|].
        intros C. now contradiction C.
      - unfold call_generate_dialog_id in I.
        destruct (generate_dialog_id (document p) kind) as [g|];
          [|discriminate].
        injection I as <- _. split; [intros C; contradiction|auto]. }
    destruct (create_dialog settings _ q) as [[dlg|] q'| |];
      try discriminate.
    + unfold ret. intros [= <- <- <-].
      destruct (Js.truthy_value (href el)) as [h|] eqn:Hh.
      * assert (Hsrc : src = h)
          by (unfold trigger_source in Hs; rewrite Hh in Hs; congruence).
        subst h.
        split; [reflexivity|]. split; [reflexivity|].
        split; [reflexivity|]. split; [reflexivity|].
        split; [intros [C|C]; discriminate|]. split.
        -- intros h0 kind0 src0 _ [= <-] [= <- <-]. split; [reflexivity|].
           exists id. simpl. repeat split; apply Hid.
        -- intros Ht s [= -> ->]. simpl.
           rewrite (proj1 Hid eq_refl).
           assert (Hinfer : infer_dialog_type s = Some "inline").
           { unfold resolve in R. rewrite Hs, Ht in R.
             destruct (infer_dialog_type s); [now injection R as ->|discriminate]. }
           assert (Hhash : Js.first_char_is "#" s = true).
           { unfold infer_dialog_type in Hinfer.
             destruct (Regex.image_re s); [discriminate|].
             destruct (Regex.video_re s); [discriminate|].
             destruct (Regex.pdf_re s); [discriminate|].
             destruct (Js.first_char_is "#" s); [reflexivity|discriminate]. }
           destruct s as [|c s]; [discriminate|]. simpl in Hhash.
           apply Ascii.eqb_eq in Hhash. subst c.
           unfold Js.truthy_value in Hh.
           destruct (href el) as [x|]; [|discriminate].
           destruct (Js.truthy x); [|discriminate]. now injection Hh as ->.
      * repeat split; discriminate.
    + unfold ret. intros [= <- <- <-].
      repeat split; try discriminate; intros; congruence.
Qed.

(** ** What [create_dialog] leaves alone *)

(** Appending below one element leaves every element where it was. *)
Lemma node_at_append_child_keeps (d : Dom.nodes) (b q : Dom.path)
  (new : Dom.nodes) (e : Dom.element) (kids : Dom.nodes) :
  Dom.node_at d q = Some (e, kids) ->
  exists kids', Dom.node_at (Dom.append_child d b new) q = Some (e, kids').
Proof.
  revert b q.
  induction d as [|s rest IHr|x k IHk rest IHr]; intros b q H.
  - discriminate.
  - destruct q as [|[|j] q]; simpl in H; try discriminate.
    destruct b as [|[|i] b]; simpl; eauto.
  - destruct b as [|[|i] [|i' b]];
      destruct q as [|[|j] [|j' q]]; simpl in *; try discriminate; eauto;
      try (injection H as -> ->; eauto; fail);
      try (exists kids; now apply node_at_append_nodes).
Qed.

(** Changing one element leaves every other element as it was, where it
    was. *)
Ltac kept_by IH H :=
  match goal with
  | |- context [Dom.update_at _ _ ?pp] =>
      let e' := fresh "e'" in
      let k' := fresh "k'" in
      let Hn := fresh "Hn" in
      let E := fresh "E" in
      destruct (IH pp _ H) as (e' & k' & Hn & [->|[E ->]]);
      [ eexists _, _; split; [exact Hn | now left]
      | first [ discriminate E
              | eexists _, _; split; [exact Hn | right; split; congruence] ] ]
  end.

Lemma node_at_update_at_keeps (f : Dom.element -> Dom.element)
  (d : Dom.nodes) (p q : Dom.path) (e : Dom.element) (kids : Dom.nodes) :
  Dom.node_at d q = Some (e, kids) ->
  exists e' kids',
    Dom.node_at (Dom.update_at f d p) q = Some (e', kids')
    /\ (e' = e \/ (q = p /\ e' = f e)).
Proof.
  revert p q.
  induction d as [|s rest IHr|x k IHk rest IHr]; intros p q H.
  - discriminate.
  - destruct p as [|[|i] [|i' p]];
      destruct q as [|[|j] [|j' q]]; simpl in *; try discriminate;
      first [ eexists _, _; split; [exact H | now left]
            | kept_by IHr H ].
  - destruct p as [|[|i] [|i' p]];
      destruct q as [|[|j] [|j' q]]; simpl in *; try discriminate;
      first [ eexists _, _; split; [exact H | now left]
            | injection H as -> ->; eexists _, _;
              split; [reflexivity | right; split; reflexivity]
            | injection H as -> ->; eexists _, _;
              split; [reflexivity | now left]
            | kept_by IHk H
            | kept_by IHr H ].
Qed.

(** X13.  With the fragments kept (the default), [create_dialog] moves
    and removes nothing: each element of the document is found after the
    call where it was before it, and as it was, but for the inline
    fragment, which has lost its id.  For a kind other than inline the
    document has gained the elements of the new dialog and no other,
    whatever they are counted by.  The console and the focus are
    untouched. *)
Theorem create_dialog_keeps_every_element
  (settings : Settings.t) (params : Params.t) (p p' : page) (dlg : Dom.path) :
  Settings.remove_inline_content settings = false ->
  create_dialog settings params p = Normal (Some dlg) p' ->
  (forall q e kids,
     Dom.node_at (document p) q = Some (e, kids) ->
     exists e' kids',
       Dom.node_at (document p') q = Some (e', kids')
       /\ (e' = e
           \/ (Params.dialog_type params = "inline"
               /\ Dom.get_element_by_id (Params.dialog_id params) (document p)
                  = Some q
               /\ e' = Dom.remove_id e)))
  /\ (Params.dialog_type params <> "inline" ->
      forall P,
        Dom.count P (document p')
        = Dom.count P (document p)
          + Dom.count P
              (build_dialog settings (dialog_content settings params "")))
  /\ console p' = console p
  /\ focused p' = focused p.
Proof.
  intros Hkeep H.
  destruct (String.eqb_spec (Params.dialog_type params) "inline") as [Ht|Ht].
  - destruct (create_dialog_inline _ _ _ _ _ Ht H)
      as [(_ & E & _) | (frag & b & eb & kb & G & Hmid)]; [discriminate|].
    cbv zeta in Hmid. rewrite Hkeep in Hmid.
    destruct Hmid as (Hb & Hn & _ & ->).
    split; [|split; [intros C; now contradiction C | split; reflexivity]].
    intros q e kids Hq.
    destruct (node_at_update_at_keeps Dom.remove_id _ frag _ _ _ Hq)
      as (e' & k' & Hq' & He).
    destruct (node_at_append_child_keeps _ b _
                (build_dialog settings
                   (dialog_content settings params
                      (inline_html (document p) frag)))
                _ _ Hq') as (k'' & Hq'').
    exists e', k''. split; [exact Hq''|].
    destruct He as [->|[-> ->]]; [now left|]. right. auto.
  - destruct (create_dialog_media _ _ _ _ _ Ht H)
      as (b & eb & kb & Hb & Hn & _ & ->).
    split; [|split; [|split; reflexivity]].
    + intros q e kids Hq.
      destruct (node_at_append_child_keeps _ b _
                  (build_dialog settings (dialog_content settings params ""))
                  _ _ Hq) as (k' & Hq').
      exists e, k'. split; [exact Hq' | now left].
    + intros _ P. simpl document.
      now rewrite (count_append_child _ _ _ _ _ _ Hn).
Qed.

(** ** The media type of a source without an extension *)

Lemma matcher_group1_no_dot (s : string) :
  Regex.no_dot s = true -> Regex.matcher_group1 s = None.
Proof.
  induction s as [|c s IH]; simpl; [reflexivity|].
  intros H. apply andb_true_iff in H. destruct H as [Hc H].
  apply negb_true_iff in Hc. rewrite Hc. simpl. auto.
Qed.

Lemma matcher_group1_final_dot (stem : string) :
  Regex.matcher_group1 (stem ++ ".") = None.
Proof.
  induction stem as [|c stem IH]; [reflexivity|].
  change (String c stem ++ ".") with (String c (stem ++ String "." "")).
  cbn [Regex.matcher_group1].
  now rewrite no_dot_with_dot, andb_false_r.
Qed.

(** A source has no dot, ends with a dot, or has a last dot with
    something after it. *)
Lemma last_dot_cases (s : string) :
  Regex.no_dot s = true
  \/ (exists stem, s = stem ++ ".")
  \/ (exists stem rest,
        s = stem ++ "." ++ rest
        /\ Regex.no_dot rest = true /\ Js.truthy rest = true).
Proof.
  induction s as [|c s IH]; [now left|].
  destruct IH as [Hn | [(stem & ->) | (stem & rest & -> & Hr)]].
  - destruct (Ascii.eqb_spec c ".") as [->|Hc].
    + destruct s as [|k s].
      * right. left. now exists "".
      * right. right. now exists "", (String k s).
    + left. simpl. apply Ascii.eqb_neq in Hc. now rewrite Hc.
  - right. left. now exists (String c stem).
  - right. right. now exists (String c stem), rest.
Qed.

(** X14.  The matcher of line 175 captures nothing exactly when the
    source has no dot or ends with one, and the media type of line 176 is
    then the text video/undefined. *)
Theorem format_of_a_source_without_extension (src : string) :
  (Regex.matcher_group1 src = None
   <-> Regex.no_dot src = true \/ exists stem, src = stem ++ ".")
  /\ (Regex.no_dot src = true \/ (exists stem, src = stem ++ ".") ->
      format src = "video/undefined").
Proof.
  assert (Hnone :
    Regex.no_dot src = true \/ (exists stem, src = stem ++ ".") ->
    Regex.matcher_group1 src = None).
  { intros [H | (stem & ->)];
      [now apply matcher_group1_no_dot | apply matcher_group1_final_dot]. }
  split; [split; [|exact Hnone]|].
  - intros H.
    destruct (last_dot_cases src) as [Hn | [He | (stem & rest & -> & Hd & Ht)]];
      [now left | now right |].
    rewrite (matcher_group1_after_last_dot stem rest Hd Ht) in H.
    discriminate.
  - intros H. unfold format. now rewrite (Hnone H).
Qed.

(** ** [init] on one trigger, end to end *)

(** X15.  A trigger of a kind other than inline, on a page with a body:
    [init] looks up the first free id of the kind, writes it after a hash
    sign into the href of the trigger when it has one, and gives it to no
    element: the modal it builds has no id.  It attaches the modal as the
    last child of the body, closed; the trigger gets a listener for it.
    The modal of an image holds the parse of the close button and of an
    [img] element with the source as the trigger gave it and the alt text
    of the trigger, empty when it has none. *)
Theorem init_trigger_attaches_a_closed_modal
  (settings : Settings.t) (el : trigger) (kind src : string) (p : page)
  (b : Dom.path) :
  resolve el = Resolved kind src ->
  kind <> "inline" ->
  Dom.body (document p) = Some b ->
  exists id eb kb el' p',
    generate_dialog_id (document p) kind = Some id
    /\ Dom.node_at (document p) b = Some (eb, kb)
    /\ init_trigger settings el p
       = Normal (el', Some (b ++ [Dom.node_count kb])%list) p'
    /\ Dom.node_at (document p') (b ++ [Dom.node_count kb])%list
       = Some (dialog_element,
               Dom.element_node (inner_element settings)
                 (parse_html
                    (dialog_content settings
                       (trigger_params settings el kind id src) ""))
                 Dom.no_nodes)
    /\ Dom.id_attr dialog_element = None
    /\ Dom.id_attr (inner_element settings) = None
    /\ (Js.truthy_value (href el) <> None -> href el' = Some ("#" ++ id))
    /\ (Js.truthy_value (href el) = None -> el' = el)
    /\ dialog_open dialog_element = false
    /\ (kind = "image" ->
        dialog_content settings (trigger_params settings el kind id src) ""
        = close_button_markup settings
            (trigger_params settings el kind id src)
          ++ "<img src=" ++ Js.quoted src ++ " alt="
          ++ Js.quoted
               (match Js.truthy_value (data_img_alt el) with
                | Some alt => alt
                | None => ""
                end)
          ++ ">").
Proof.
  intros R Hk Hb.
  destruct (generate_dialog_id_returns (document p) kind) as (n & Hgen & _).
  destruct (body_node_at _ _ Hb) as (eb & kb & Hn).
  exists (candidate_id kind n), eb, kb.
  unfold init_trigger. rewrite R.
  rewrite (proj2 (String.eqb_neq _ _) Hk). simpl.
  unfold bind at 1. unfold call_generate_dialog_id. rewrite Hgen.
  unfold bind. unfold create_dialog. simpl.
  rewrite (proj2 (String.eqb_neq _ _) Hk).
  rewrite (attach_with_body _ p b eb kb Hb Hn).
  eexists _, _. split; [reflexivity|]. split; [exact Hn|].
  split; [reflexivity|]. repeat split.
  - simpl document. unfold build_dialog.
    exact (node_at_attached _ _ _ _ _ _ Hn).
  - intros Hh. destruct (Js.truthy_value (href el)); [reflexivity|].
    now contradiction Hh.
  - now intros ->.
  - intros ->. unfold dialog_content, media_markup. simpl.
    now rewrite append_empty_r.
Qed.


(** ** The loop of [generate_dialog_id], and the dialog the listener sees *)

(** X17.  The number [generate_dialog_id] ends its id with is at most the
    number of elements of the document, and at most the number of those
    that carry an id: the [while] loop runs its body no more often than
    that. *)
Theorem generate_dialog_id_is_bounded (d : Dom.nodes) (kind : string) :
  exists n,
    generate_dialog_id d kind = Some (candidate_id kind n)
    /\ n <= length (Dom.elements d)
    /\ n <= Dom.count
              (fun e => match Dom.id_attr e with Some _ => true | None => false end)
              d.
Proof.
  destruct (generate_dialog_id_returns d kind) as (n & Hgen & _ & Hleast).
  exists n. split; [exact Hgen|].
  split; [now apply (taken_candidates_bound d kind)|].
  set (with_id := fun e : Dom.element =>
                    match Dom.id_attr e with Some _ => true | None => false end).
  set (ids := map Dom.id_attr (filter with_id (Dom.elements d))).
  set (cands := map (fun j => Some (candidate_id kind j)) (seq 0 n)).
  assert (Hlen : length cands <= length ids).
  { apply NoDup_incl_length.
    - unfold cands. apply Injective_map_NoDup; [|apply seq_NoDup].
      intros a b [= E]. now apply candidate_id_inj in E.
    - intros x Hx. unfold cands in Hx. apply in_map_iff in Hx.
      destruct Hx as (j & <- & Hj). apply in_seq in Hj.
      destruct (Dom.get_element_by_id (candidate_id kind j) d) as [p|] eqn:G.
      + apply get_element_by_id_some in G. destruct G as (e & k & Hn & Hid).
        unfold ids. rewrite <- Hid. apply in_map. apply filter_In.
        split; [eapply node_at_in; eauto|]. unfold with_id. now rewrite Hid.
      + exfalso. apply (Hleast j); [lia | exact G]. }
  unfold cands, ids in Hlen. rewrite !length_map, length_seq in Hlen.
  assert (Hcount : forall P t,
            length (filter P (Dom.elements t)) = Dom.count P t).
  { intros P t.
    induction t as [|s rest IHr|e k IHk rest IHr]; simpl; auto.
    rewrite filter_app. destruct (P e); simpl; rewrite length_app; lia. }
  now rewrite Hcount in Hlen.
Qed.

(** The dialog appended to a list of nodes among which nothing satisfies
    [P], once changed into one that does, is the first to satisfy it. *)
Lemma find_first_appended (P : Dom.element -> bool)
  (f : Dom.element -> Dom.element) (k inner : Dom.nodes) (e0 : Dom.element) :
  Dom.find_first P k = None ->
  P (f e0) = true ->
  Dom.find_first P
    (Dom.update_at f
       (Dom.append_nodes k (Dom.element_node e0 inner Dom.no_nodes))
       [Dom.node_count k])
  = Some [Dom.node_count k].
Proof.
  intros Hk Hf.
  induction k as [|s rest IHr|x c IHc rest IHr]; simpl in *.
  - now rewrite Hf.
  - destruct (Dom.find_first P rest); [discriminate|].
    destruct rest; simpl in *; now rewrite (IHr eq_refl).
  - destruct (P x); [discriminate|].
    destruct (Dom.find_first P c); [discriminate|].
    destruct (Dom.find_first P rest); [discriminate|].
    destruct rest; simpl in *; now rewrite (IHr eq_refl).
Qed.


(** The same below an element of the document, nothing in which
    satisfies [P]. *)
Lemma find_first_attached (P : Dom.element -> bool)
  (f : Dom.element -> Dom.element) (d : Dom.nodes) (b : Dom.path)
  (eb e0 : Dom.element) (kb inner : Dom.nodes) :
  Dom.node_at d b = Some (eb, kb) ->
  Dom.find_first P d = None ->
  P (f e0) = true ->
  Dom.find_first P
    (Dom.update_at f
       (Dom.append_child d b (Dom.element_node e0 inner Dom.no_nodes))
       (b ++ [Dom.node_count kb])%list)
  = Some (b ++ [Dom.node_count kb])%list.
Proof.
  intros H Hnone Hf. revert b H.
  induction d as [|s rest IHr|x k IHk rest IHr]; intros b H.
  - destruct b; discriminate.
  - destruct b as [|[|i] q]; simpl in H; try discriminate.
    simpl in Hnone.
    destruct (Dom.find_first P rest) eqn:F; [discriminate|].
    specialize (IHr eq_refl _ H).
    simpl. simpl in IHr. now rewrite IHr.
  - simpl in Hnone.
    destruct (P x) eqn:Px; [discriminate|].
    destruct (Dom.find_first P k) eqn:Fk; [discriminate|].
    destruct (Dom.find_first P rest) eqn:Fr; [discriminate|].
    destruct b as [|[|i] [|j q]]; simpl in H; try discriminate.
    + injection H as -> ->. simpl.
      rewrite Px, (find_first_appended P f kb inner e0 Fk Hf). reflexivity.
    + specialize (IHk eq_refl _ H). simpl. simpl in IHk.
      now rewrite Px, IHk.
    + specialize (IHr eq_refl _ H). simpl. simpl in IHr.
      now rewrite Px, Fk, IHr.
    + specialize (IHr eq_refl _ H). simpl. simpl in IHr.
      now rewrite Px, Fk, IHr.
Qed.


Lemma find_first_kept_appended (P : Dom.element -> bool)
  (f : Dom.element -> Dom.element) (k new : Dom.nodes) (r : Dom.path) :
  Dom.find_first P k = Some r ->
  Dom.find_first P
    (Dom.update_at f (Dom.append_nodes k new) [Dom.node_count k])
  = Some r.
Proof.
  revert r.
  induction k as [|s rest IHr|x c IHc rest IHr]; intros r H; simpl in *.
  - discriminate.
  - destruct (Dom.find_first P rest) as [r'|]; [|discriminate].
    specialize (IHr _ eq_refl).
    destruct rest; simpl in *; try discriminate; now rewrite IHr.
  - destruct (P x); [exact H|].
    destruct (Dom.find_first P c); [exact H|].
    destruct (Dom.find_first P rest) as [r'|]; [|discriminate].
    specialize (IHr _ eq_refl).
    destruct rest; simpl in *; try discriminate; now rewrite IHr.
Qed.

(** An element found first below the element the dialog is appended to
    is still found first. *)
Lemma find_first_kept_attached (P : Dom.element -> bool)
  (f : Dom.element -> Dom.element) (d new : Dom.nodes) (b r : Dom.path)
  (eb : Dom.element) (kb : Dom.nodes) :
  Dom.node_at d b = Some (eb, kb) ->
  Dom.find_first P d = Some (b ++ r)%list ->
  r <> [] ->
  Dom.find_first P
    (Dom.update_at f (Dom.append_child d b new)
       (b ++ [Dom.node_count kb])%list)
  = Some (b ++ r)%list.
Proof.
  intros H Hfound Hr. revert b H Hfound.
  induction d as [|s rest IHr|x k IHk rest IHr]; intros b H Hfound.
  - destruct b; discriminate.
  - destruct b as [|[|i] q]; simpl in H; try discriminate.
    simpl in Hfound.
    destruct (Dom.find_first P rest) as [[|j r']|] eqn:F; try discriminate.
    injection Hfound as -> ->.
    specialize (IHr (i :: q) H eq_refl).
    simpl. simpl in IHr. now rewrite IHr.
  - simpl in Hfound.
    destruct b as [|[|i] [|j q]]; simpl in H; try discriminate.
    + injection H as -> ->.
      destruct (P eb) eqn:Px.
      { destruct r; [now destruct Hr | discriminate]. }
      destruct (Dom.find_first P kb) as [r'|] eqn:Fk.
      * injection Hfound as <-. simpl.
        now rewrite Px, (find_first_kept_appended P f kb new r' Fk).
      * destruct (Dom.find_first P rest) as [[|? ?]|]; discriminate.
    + destruct (P x) eqn:Px; [discriminate|].
      destruct (Dom.find_first P k) as [r'|] eqn:Fk.
      * injection Hfound as ->.
        specialize (IHk (j :: q) H eq_refl).
        simpl. simpl in IHk. now rewrite Px, IHk.
      * destruct (Dom.find_first P rest) as [[|? ?]|]; discriminate.
    + destruct (P x) eqn:Px; [discriminate|].
      destruct (Dom.find_first P k) as [r'|] eqn:Fk; [discriminate|].
      destruct (Dom.find_first P rest) as [[|a r']|] eqn:F; try discriminate.
      injection Hfound as -> ->.
      specialize (IHr [i] H eq_refl).
      simpl. simpl in IHr. now rewrite Px, Fk, IHr.
    + destruct (P x) eqn:Px; [discriminate|].
      destruct (Dom.find_first P k) as [r'|] eqn:Fk; [discriminate|].
      destruct (Dom.find_first P rest) as [[|a r']|] eqn:F; try discriminate.
      injection Hfound as -> ->.
      specialize (IHr (i :: j :: q) H eq_refl).
      simpl. simpl in IHr. now rewrite Px, Fk, IHr.
Qed.

(** No node stands past the last child of an element. *)
Lemma node_at_past_the_children (d : Dom.nodes) (b : Dom.path)
  (eb e : Dom.element) (kb kids : Dom.nodes) :
  Dom.node_at d b = Some (eb, kb) ->
  Dom.node_at d (b ++ [Dom.node_count kb])%list = Some (e, kids) -> False.
Proof.
  intros H. rewrite (node_at_below _ _ _ _ _ H) by discriminate.
  clear H. induction kb as [|s r IHr|x k IHk r IHr]; simpl; auto; discriminate.
Qed.

(** X18.  [open] and the listener.  On a page where no dialog is open,
    the modal that [open] shows is afterwards the dialog the [keydown]
    listener looks up, the first match of [dialog[open]].  On a page where
    a dialog below the body is open already, the listener goes on finding
    that one, not the modal just shown: the focus is kept in the dialog
    opened first. *)
Theorem open_and_the_dialog_of_the_listener
  (settings : Settings.t) (kind source img_alt : string) (p : page)
  (b : Dom.path) :
  kind <> "inline" -> kind <> "image" -> kind <> "iframe" ->
  (kind = "video" -> source <> "") ->
  Dom.body (document p) = Some b ->
  exists eb kb p',
    Dom.node_at (document p) b = Some (eb, kb)
    /\ open settings kind source img_alt p = Normal tt p'
    /\ (exists inner,
          Dom.node_at (document p') (b ++ [Dom.node_count kb])%list
          = Some (Dom.set_attribute "open" "" dialog_element, inner))
    /\ (Dom.find_first dialog_open (document p) = None ->
        Dom.find_first dialog_open (document p')
        = Some (b ++ [Dom.node_count kb])%list)
    /\ (forall r,
          r <> [] ->
          Dom.find_first dialog_open (document p) = Some (b ++ r)%list ->
          Dom.find_first dialog_open (document p') = Some (b ++ r)%list
          /\ (b ++ r)%list <> (b ++ [Dom.node_count kb])%list).
Proof.
  intros Hin Him Hif Hv Hb.
  destruct (open_media_result settings kind source img_alt p b
              Hin Him Hif Hv Hb)
    as (n & eb & kb & below & _ & Hn & _ & Hopen).
  exists eb, kb. eexists. split; [exact Hn|]. split; [exact Hopen|].
  assert (Hdoc : forall (c : bool) (q r : page),
            document q = document r ->
            document (if c then q else r) = document r)
    by (intros [] q r E; auto).
  rewrite Hdoc by reflexivity.
  cbn [document with_document]. unfold build_dialog.
  split; [|split; [|intros r Hr Hfound; split]].
  - eexists. apply node_at_update_at.
    exact (node_at_attached _ _ eb _ _ _ Hn).
  - intros Hnone.
    apply (find_first_attached _ _ _ _ eb); [exact Hn | exact Hnone |].
    reflexivity.
  - now apply (find_first_kept_attached _ _ _ _ _ _ eb).
  - intros E. apply app_inv_head in E. subst r.
    apply find_first_some in Hfound.
    destruct Hfound as (e & kids & Hat & _).
    exact (node_at_past_the_children _ _ _ _ _ _ Hn Hat).
Qed.

End Further.

(* ================================================================== *)
(** * The further properties on sample pages *)
(* ================================================================== *)

(** X3, on the sample page: after Tab on the link has moved the focus to
    the close button, a second run of the listener leaves it there. *)
Lemma keydown_twice_moves_focus_once_witness :
  exists again,
    @keydown plain_browser (tab_key false false)
      (with_focus [0; 1; 0; 0; 0; 0] open_dialog_page)
    = Normal again (with_focus [0; 1; 0; 0; 0; 0] open_dialog_page).
Proof.
  apply (@keydown_twice_moves_focus_once plain_browser (tab_key false false)
           open_dialog_page
           (with_focus [0; 1; 0; 0; 0; 0] open_dialog_page) true).
  reflexivity.
Defined.

(** X4, on the sample page: the button for a fragment that is nowhere. *)
Lemma init_trigger_reports_exactly_when_it_skips_witness :
  exists el' r p',
    @init_trigger plain_browser eq_dialog_defaults nowhere_button details_page
    = Normal (el', r) p'
    /\ focused p' = focused details_page
    /\ Dom.body (document p') = Some [0; 1]
    /\ (r = None <-> skipped_on (document details_page) nowhere_button)
    /\ (r = None ->
        el' = nowhere_button /\ document p' = document details_page
        /\ exists msg, console p' = List.app (console details_page) [msg])
    /\ (r <> None -> console p' = console details_page).
Proof.
  apply (@init_trigger_reports_exactly_when_it_skips plain_browser
           eq_dialog_defaults nowhere_button details_page [0; 1]);
    reflexivity.
Defined.

(** X5, on the sample page: three triggers, the second of which is
    skipped. *)
Lemma init_completes_on_a_page_with_a_body_witness :
  exists results p',
    @init plain_browser eq_dialog_defaults
      [photo_link; nowhere_button; details_button] details_page
    = Normal results p'
    /\ length results = 3
    /\ Dom.body (document p') = Some [0; 1]
    /\ focused p' = focused details_page
    /\ exists msgs,
         console p' = List.app (console details_page) msgs
         /\ length msgs = length (skipped results).
Proof.
  apply (@init_completes_on_a_page_with_a_body plain_browser
           eq_dialog_defaults
           [photo_link; nowhere_button; details_button] details_page [0; 1]);
    reflexivity.
Defined.

(** X6, on the page whose body has been removed. *)
Lemma create_dialog_throws_without_a_body_witness :
  @create_dialog plain_browser eq_dialog_defaults image_params bodyless_page
  = Throws "TypeError: document.body is null" bodyless_page
  /\ exists p',
       @create_dialog plain_browser eq_dialog_defaults details_params
         bodyless_page
       = Throws "TypeError: document.body is null" p'
       /\ Dom.get_element_by_id "details" (document p') = None.
Proof.
  split.
  - apply (proj1 (@create_dialog_throws_without_a_body plain_browser
                    eq_dialog_defaults image_params bodyless_page eq_refl)).
    discriminate.
  - destruct (proj2 (@create_dialog_throws_without_a_body plain_browser
                       eq_dialog_defaults details_params bodyless_page eq_refl)
                [0; 1] _ _ eq_refl eq_refl eq_refl eq_refl)
      as (p' & H & Hdoc & _).
    exists p'. split; [exact H|]. now rewrite Hdoc.
Defined.



(** X9, on the source clip.mp4. *)
Lemma video_markup_leaves_the_link_placeholder_witness :
  @video_markup "clip.mp4" = player "clip.mp4" "video/mp4" "{{src}}".
Proof.
  apply (proj1 (video_markup_leaves_the_link_placeholder "clip.mp4"
                  eq_refl eq_refl)).
Defined.

(** X10, with the default settings: a trigger with a label of its own,
    and [open]. *)
Lemma close_button_label_witness :
  close_button_markup eq_dialog_defaults
    (trigger_params eq_dialog_defaults
       (mk_trigger None (Some "photo.png") None None (Some "Shut"))
       "image" "image-dialog-0" "photo.png")
  = close_button_with_label "Shut"
  /\ close_button_markup eq_dialog_defaults
       (Params.mk "video" "video-dialog-0" "clip.mp4" "" None)
     = close_button_with_label "undefined".
Proof.
  split.
  - apply (proj1 (close_button_label eq_dialog_defaults eq_refl)
             (mk_trigger None (Some "photo.png") None None (Some "Shut"))
             "image" "image-dialog-0" "photo.png" "Shut");
      reflexivity.
  - apply (proj1 (proj2 (close_button_label eq_dialog_defaults eq_refl))).
Defined.

(** X11, on two spellings of one address. *)
Lemma infer_dialog_type_ignores_case_witness :
  infer_dialog_type "Photo.PNG?Size=2" = infer_dialog_type "photo.png?size=2".
Proof.
  apply infer_dialog_type_ignores_case. reflexivity.
Defined.

(** X12, on the sample page: the link to an image has its href written,
    with its dataset as it was. *)
Lemma init_trigger_writes_the_href_only_witness :
  exists el' r p',
    @init_trigger plain_browser eq_dialog_defaults photo_link details_page
    = Normal (el', r) p'
    /\ href el' = Some "#image-dialog-0"
    /\ data_type el' = data_type photo_link
    /\ data_target el' = data_target photo_link
    /\ data_img_alt el' = data_img_alt photo_link
    /\ data_close_btn_txt el' = data_close_btn_txt photo_link.
Proof.
  destruct (@init_trigger plain_browser eq_dialog_defaults photo_link
              details_page) as [[el' r] p'| |] eqn:E;
    [|lazy in E; discriminate E|lazy in E; discriminate E].
  destruct (@init_trigger_writes_the_href_only plain_browser
              eq_dialog_defaults photo_link el' details_page p' r E)
    as (H1 & H2 & H3 & H4 & _).
  exists el', r, p'. split; [reflexivity|].
  split; [|now repeat split].
  lazy in E. now injection E as <- _ _.
Defined.

(** X13, on the sample page: the image dialog is attached and the
    fragment is where it was. *)
Lemma create_dialog_keeps_every_element_witness :
  exists dlg p' kids',
    @create_dialog plain_browser eq_dialog_defaults image_params details_page
    = Normal (Some dlg) p'
    /\ Dom.node_at (document p') [0; 1; 0]
       = Some (Dom.mk_element "div" (Some "details") [] [], kids').
Proof.
  destruct (@create_dialog plain_browser eq_dialog_defaults image_params
              details_page) as [[dlg|] p'| |] eqn:E;
    try (lazy in E; discriminate E).
  destruct (proj1 (@create_dialog_keeps_every_element plain_browser
                     eq_dialog_defaults image_params details_page p' dlg
                     eq_refl E)
              [0; 1; 0] _ _ eq_refl)
    as (e' & kids' & Hn & [->|(C & _)]); [|discriminate C].
  now exists dlg, p', kids'.
Defined.

(** X14, on a source without a dot and on one that ends with a dot. *)
Lemma format_of_a_source_without_extension_witness :
  format "clip" = "video/undefined" /\ format "clip." = "video/undefined".
Proof.
  split.
  - apply (proj2 (format_of_a_source_without_extension "clip")).
    now left.
  - apply (proj2 (format_of_a_source_without_extension "clip.")).
    right. now exists "clip".
Defined.

(** X15, on the sample page: the link to an image. *)
Lemma init_trigger_attaches_a_closed_modal_witness :
  exists el' p',
    @init_trigger plain_browser eq_dialog_defaults photo_link details_page
    = Normal (el', Some [0; 1; 1]) p'
    /\ exists inner,
         Dom.node_at (document p') [0; 1; 1] = Some (dialog_element, inner).
Proof.
  destruct (@init_trigger_attaches_a_closed_modal plain_browser
              eq_dialog_defaults photo_link "image" "photo.png" details_page
              [0; 1] eq_refl ltac:(discriminate) eq_refl)
    as (id & eb & kb & el' & p' & _ & Hb & H & Hn & _).
  injection Hb as _ <-.
  exists el', p'. split; [exact H|]. eexists. exact Hn.
Defined.


(** X18, on the sample pages: with no dialog open the listener finds the
    new modal, the second child of the body; with a dialog open it goes on
    finding that one, the first child. *)
Lemma open_and_the_dialog_of_the_listener_witness :
  (exists p',
     @open plain_browser eq_dialog_defaults "video" "clip.mp4" "" details_page
     = Normal tt p'
     /\ Dom.find_first dialog_open (document p') = Some [0; 1; 1])
  /\ (exists p',
        @open plain_browser eq_dialog_defaults "video" "clip.mp4" ""
          open_dialog_page
        = Normal tt p'
        /\ Dom.find_first dialog_open (document p') = Some [0; 1; 0]).
Proof.
  split.
  - destruct (@open_and_the_dialog_of_the_listener plain_browser
                eq_dialog_defaults "video" "clip.mp4" "" details_page [0; 1])
      as (eb & kb & p' & Hn & H & _ & Hfirst & _);
      try discriminate; try reflexivity.
    exists p'. split; [exact H|].
    injection Hn as <- <-. exact (Hfirst eq_refl).
  - destruct (@open_and_the_dialog_of_the_listener plain_browser
                eq_dialog_defaults "video" "clip.mp4" "" open_dialog_page
                [0; 1])
      as (eb & kb & p' & Hn & H & _ & _ & Hkept);
      try discriminate; try reflexivity.
    exists p'. split; [exact H|].
    exact (proj1 (Hkept [0] ltac:(discriminate) eq_refl)).
Defined.
